(** * Declaration nodes of the Swift AST

    A shallow embedding of [include/swift/AST/Decl.h]: the kind registry, the
    base node with its Named and Valued layers, and the concrete declaration
    classes whose accessors and mutators are defined inline in that header.

    Conventions.
    - A C++ pointer is an optional arena address; [None] is [nullptr].
    - An [assert] is modelled by the [result] type: the debug build either
      carries on ([Ok]) or stops with the message of the failed assertion.
    - Every class is a module; its record [t] holds the data members in the
      order of the header and starts with the base-class subobject. *)

From stdpp Require Import gmap strings list.

Local Open Scope Z_scope.

(** ** Pointers and assertions *)

Abbreviation addr := N.
Definition ptr := option addr.
Definition nullptr : ptr := None.

Definition isNonNull (p : ptr) : bool :=
  match p with Some _ => true | None => false end.

Inductive result (A : Type) : Type :=
| Ok (a : A)
| AssertionFailed (msg : string).
Arguments Ok {A} a.
Arguments AssertionFailed {A} msg.

Definition bind {A B} (r : result A) (k : A -> result B) : result B :=
  match r with
  | Ok a => k a
  | AssertionFailed msg => AssertionFailed msg
  end.

Definition succeeds {A} (r : result A) : bool :=
  match r with Ok _ => true | AssertionFailed _ => false end.

(** [assert(c && msg)] *)
Definition assert (c : bool) (msg : string) : result unit :=
  if c then Ok tt else AssertionFailed msg.

(** ** Types of the collaborating headers *)

(** Modelled from the spec: [swift/Basic/SourceLoc.h] is not part of this
    header.  A source location is a position that is either valid or not
    (section 4.2, "the static location if present"); it is kept as a pointer
    into the source buffer, valid when non-null. *)
Module SourceLoc.
Record t := mk { Value : ptr }.
Definition invalid : t := {| Value := nullptr |}.
Definition isValid (L : t) : bool := isNonNull (Value L).
End SourceLoc.

Module SourceRange.
Record t := mk { Start : SourceLoc.t; End_ : SourceLoc.t }.
End SourceRange.

(** Modelled from the spec: [swift/AST/Type.h] is not part of this header.
    A type is "optional until resolved" (section 3): a handle on a type
    node, null while unset.  [Type_.null] is the default-constructed
    [Type()]. *)
Module Type_.
Record t := mk { Ptr : ptr }.
Definition null : t := {| Ptr := nullptr |}.
Definition isNull (T : t) : bool := negb (isNonNull (Ptr T)).
End Type_.

(** Modelled from the spec: [swift/AST/Identifier.h] is not part of this
    header; an identifier is a name token. *)
Definition Identifier := string.

(** [llvm::PointerIntPair<PointerTy, 1, bool>] of the LLVM support library,
    by its interface: a pointer and one bit, read and written separately,
    both zero after default construction. *)
Module PointerIntPair.
Record t := mk { Pointer : ptr; Int : bool }.
Definition init : t := {| Pointer := nullptr; Int := false |}.
Definition getPointer (V : t) : ptr := Pointer V.
Definition getInt (V : t) : bool := Int V.
Definition setPointer (P : ptr) (V : t) : t := {| Pointer := P; Int := Int V |}.
Definition setInt (I : bool) (V : t) : t := {| Pointer := Pointer V; Int := I |}.
End PointerIntPair.

(** [llvm::PointerUnion<PT1, PT2>] of the LLVM support library, by its
    interface: a pointer-int pair whose bit says which of the two pointer
    types is held; default construction holds a null [PT1]. *)
Module PointerUnion.
Record t := mk { Val : PointerIntPair.t }.
Definition init : t := {| Val := PointerIntPair.init |}.
(** [operator=(const PT1 &)] and [operator=(const PT2 &)] *)
Definition assign_PT1 (P : ptr) (U : t) : t :=
  {| Val := PointerIntPair.setInt false (PointerIntPair.setPointer P (Val U)) |}.
Definition assign_PT2 (P : ptr) (U : t) : t :=
  {| Val := PointerIntPair.setInt true (PointerIntPair.setPointer P (Val U)) |}.
Definition isNull (U : t) : bool :=
  negb (isNonNull (PointerIntPair.getPointer (Val U))).
Definition is_PT1 (U : t) : bool := negb (PointerIntPair.getInt (Val U)).
Definition is_PT2 (U : t) : bool := PointerIntPair.getInt (Val U).
(** [dyn_cast<PT1>()], [dyn_cast<PT2>()]: the pointer when that
    alternative is held, null otherwise. *)
Definition dyn_cast_PT1 (U : t) : ptr :=
  if is_PT1 U then PointerIntPair.getPointer (Val U) else nullptr.
Definition dyn_cast_PT2 (U : t) : ptr :=
  if is_PT2 U then PointerIntPair.getPointer (Val U) else nullptr.
End PointerUnion.

(** ** The kind registry *)

(** The entries of [swift/AST/DeclNodes.def], which [enum class DeclKind]
    expands. *)
Module DeclNodes.
Inductive Id :=
| Import | Extension | PatternBinding | TopLevelCode | Subscript
| TypeAlias | Var | Func | OneOfElement.

Inductive Class := Decl | NamedDecl | ValueDecl | Leaf (i : Id).

Inductive RangeId := Named | Value.

Inductive entry :=
| DECL (i : Id) (Parent : Class)
| DECL_RANGE (r : RangeId) (FirstId LastId : Id).

#[global] Instance Id_eq_dec : EqDecision Id.
Proof. solve_decision. Defined.
#[global] Instance Class_eq_dec : EqDecision Class.
Proof. solve_decision. Defined.
#[global] Instance RangeId_eq_dec : EqDecision RangeId.
Proof. solve_decision. Defined.

(** The direct base of each class, from the [class X : public Y] heads of
    the header.  [ExtensionDecl] and [TopLevelCodeDecl] also derive from
    [DeclContext], which is not a declaration class. *)
Definition base (c : Class) : option Class :=
  match c with
  | Decl => None
  | NamedDecl => Some Decl
  | ValueDecl => Some NamedDecl
  | Leaf Import => Some Decl
  | Leaf Extension => Some Decl
  | Leaf PatternBinding => Some Decl
  | Leaf TopLevelCode => Some Decl
  | Leaf Subscript => Some Decl
  | Leaf TypeAlias => Some ValueDecl
  | Leaf Var => Some ValueDecl
  | Leaf Func => Some ValueDecl
  | Leaf OneOfElement => Some ValueDecl
  end.

Fixpoint derives_upto (depth : nat) (c a : Class) : bool :=
  if decide (c = a) then true
  else match depth with
       | O => false
       | S d => match base c with
                | Some b => derives_upto d b a
                | None => false
                end
       end.

(** [c] is [a] or has [a] among its bases; no chain of bases is longer
    than three. *)
Definition derives_from (c a : Class) : bool := derives_upto 3 c a.

(** Modelled from the spec: the file [swift/AST/DeclNodes.def], which the
    header includes, is not available.  One [DECL] per concrete kind, in
    the order of the table of section 3 (which is the order of the classes
    in the header), each with the base its class has in the header, and one
    range per abstract category, "value-declarations" nested in
    "named-declarations" (section 4.1). *)
Definition entries : list entry :=
  [ DECL Import Decl;
    DECL Extension Decl;
    DECL PatternBinding Decl;
    DECL TopLevelCode Decl;
    DECL Subscript Decl;
    DECL TypeAlias ValueDecl;
    DECL Var ValueDecl;
    DECL Func ValueDecl;
    DECL OneOfElement ValueDecl;
    DECL_RANGE Value TypeAlias OneOfElement;
    DECL_RANGE Named TypeAlias OneOfElement ].
End DeclNodes.

(** [enum class DeclKind], lines 46-51: [DECL(Id, Parent)] expands to the
    enumerator [Id], which takes the value after the previous enumerator's;
    [DECL_RANGE(Id, FirstId, LastId)] expands to the two enumerators
    [First_IdDecl = FirstId] and [Last_IdDecl = LastId]. *)
Module DeclKind.
Import DeclNodes.

Definition t := Z.

Inductive enumerator :=
| E (i : Id)
| First_ (r : RangeId)
| Last_ (r : RangeId).

#[global] Instance enumerator_eq_dec : EqDecision enumerator.
Proof. solve_decision. Defined.

Fixpoint lookup_enum (e : enumerator) (env : list (enumerator * Z)) : option Z :=
  match env with
  | [] => None
  | (e', v) :: env' => if decide (e = e') then Some v else lookup_enum e env'
  end.

(** [next] is the value an enumerator without initialiser takes.  A range
    names enumerators declared before it; the defaults are never used on
    a file that compiles. *)
Fixpoint expand (next : Z) (env : list (enumerator * Z)) (es : list entry)
  : list (enumerator * Z) :=
  match es with
  | [] => env
  | DECL i _ :: es' => expand (next + 1) (env ++ [(E i, next)]) es'
  | DECL_RANGE r f l :: es' =>
      let vf := default next (lookup_enum (E f) env) in
      let vl := default next (lookup_enum (E l) env) in
      expand (vl + 1) (env ++ [(First_ r, vf); (Last_ r, vl)]) es'
  end.

Definition enumerators : list (enumerator * Z) :=
  Eval vm_compute in expand 0 [] entries.

Definition value (e : enumerator) : t :=
  default 0 (lookup_enum e enumerators).

(** The tag of a concrete kind. *)
Definition tag (i : Id) : t := value (E i).

Definition Import : t := tag DeclNodes.Import.
Definition Extension : t := tag DeclNodes.Extension.
Definition PatternBinding : t := tag DeclNodes.PatternBinding.
Definition TopLevelCode : t := tag DeclNodes.TopLevelCode.
Definition Subscript : t := tag DeclNodes.Subscript.
Definition TypeAlias : t := tag DeclNodes.TypeAlias.
Definition Var : t := tag DeclNodes.Var.
Definition Func : t := tag DeclNodes.Func.
Definition OneOfElement : t := tag DeclNodes.OneOfElement.
Definition First_NamedDecl : t := value (First_ Named).
Definition Last_NamedDecl : t := value (Last_ Named).
Definition First_ValueDecl : t := value (First_ Value).
Definition Last_ValueDecl : t := value (Last_ Value).
End DeclKind.

(** Running a sequence of operations, stopping at the first failed
    assertion. *)
Fixpoint run {State Op : Type} (step : Op -> State -> result State)
    (os : list Op) (s : State) : result State :=
  match os with
  | [] => Ok s
  | o :: os' => bind (step o s) (run step os')
  end.

(** ** The base node *)

Module Decl.
Definition NumDeclBits : Z := 8.
Definition Alignment : N := 8%N.

(** [Kind] is the bit-field [DeclBits.Kind : 8].  The two flags of
    [ValueDeclBits], which share its storage word behind eight bits of
    padding, are kept with [ValueDecl]. *)
Record t := mk { Kind : Z; Context : ptr }.

(** [Decl(DeclKind kind, DeclContext *DC)]: [DeclBits.Kind = unsigned(kind)]. *)
Definition ctor (kind : DeclKind.t) (DC : ptr) : t :=
  {| Kind := (kind mod 2 ^ 32) mod 2 ^ NumDeclBits; Context := DC |}.

Definition getKind (D : t) : DeclKind.t := Kind D.
Definition getDeclContext (D : t) : ptr := Context D.
Definition setDeclContext (DC : ptr) (D : t) : t :=
  {| Kind := Kind D; Context := DC |}.

Definition classof (D : t) : bool := true.
End Decl.

(** Modelled from the spec: [swift/AST/DeclContext.h] is not part of this
    header.  A scope container knows its kind and its parent (section 3,
    "doubles as a scope container"); the two kinds are those the header
    names. *)
Module DeclContext.
Inductive DeclContextKind := ExtensionDecl | TopLevelCodeDecl.
Record t := mk { Kind : DeclContextKind; Parent : ptr }.
Definition ctor (K : DeclContextKind) (P : ptr) : t :=
  {| Kind := K; Parent := P |}.
Definition getContextKind (C : t) : DeclContextKind := Kind C.
End DeclContext.

(** ** The Named and Valued layers *)

Module NamedDecl.
(** [const DeclAttributes *Attrs]: the shared static [EmptyAttrs] or a
    store of the node's own. *)
Inductive AttrsPtr := EmptyAttrs | OwnAttrs (a : addr).

Record t := mk { base : Decl.t; Name : Identifier; Attrs : AttrsPtr }.

Definition ctor (K : DeclKind.t) (DC : ptr) (name : Identifier) : t :=
  {| base := Decl.ctor K DC; Name := name; Attrs := EmptyAttrs |}.

Definition getName (D : t) : Identifier := Name D.
Definition setDeclContext (DC : ptr) (D : t) : t :=
  {| base := Decl.setDeclContext DC (base D); Name := Name D; Attrs := Attrs D |}.

Definition classof (D : Decl.t) : bool :=
  (Decl.getKind D >=? DeclKind.First_NamedDecl) &&
  (Decl.getKind D <=? DeclKind.Last_NamedDecl).
End NamedDecl.

Module ValueDecl.
Record t := mk {
  base : NamedDecl.t;
  Ty : Type_.t;
  NeverUsedAsLValue : bool;
  HasFixedLifetime : bool
}.

Definition ctor (K : DeclKind.t) (DC : ptr) (name : Identifier) (ty : Type_.t) : t :=
  {| base := NamedDecl.ctor K DC name; Ty := ty;
     NeverUsedAsLValue := false; HasFixedLifetime := false |}.

Definition asDecl (V : t) : Decl.t := NamedDecl.base (base V).
Definition getKind (V : t) : DeclKind.t := Decl.getKind (asDecl V).

Definition hasType (V : t) : bool := negb (Type_.isNull (Ty V)).

Definition getType (V : t) : result Type_.t :=
  bind (assert (negb (Type_.isNull (Ty V))) "declaration has no type set yet")
       (fun _ => Ok (Ty V)).

Definition assignTy (T : Type_.t) (V : t) : t :=
  {| base := base V; Ty := T;
     NeverUsedAsLValue := NeverUsedAsLValue V;
     HasFixedLifetime := HasFixedLifetime V |}.

(** Set the type of this declaration for the first time. *)
Definition setType (T : Type_.t) (V : t) : result t :=
  bind (assert (Type_.isNull (Ty V)) "changing type of declaration")
       (fun _ => Ok (assignTy T V)).

(** Overwrite the type of this declaration. *)
Definition overwriteType (T : Type_.t) (V : t) : t := assignTy T V.

Definition isReferencedAsLValue (V : t) : bool := getKind V =? DeclKind.Var.

Definition setHasFixedLifetime (flag : bool) (V : t) : t :=
  {| base := base V; Ty := Ty V;
     NeverUsedAsLValue := NeverUsedAsLValue V; HasFixedLifetime := flag |}.
Definition setNeverUsedAsLValue (flag : bool) (V : t) : t :=
  {| base := base V; Ty := Ty V;
     NeverUsedAsLValue := flag; HasFixedLifetime := HasFixedLifetime V |}.
Definition hasFixedLifetime (V : t) : bool := HasFixedLifetime V.
Definition isNeverUsedAsLValue (V : t) : bool := NeverUsedAsLValue V.

Definition setDeclContext (DC : ptr) (V : t) : t :=
  {| base := NamedDecl.setDeclContext DC (base V); Ty := Ty V;
     NeverUsedAsLValue := NeverUsedAsLValue V;
     HasFixedLifetime := HasFixedLifetime V |}.

Definition classof (D : Decl.t) : bool :=
  (Decl.getKind D >=? DeclKind.First_ValueDecl) &&
  (Decl.getKind D <=? DeclKind.Last_ValueDecl).

(** The mutators of a Valued node that the header defines, inherited ones
    included.  [NamedDecl::getMutableAttrs], which the header declares and
    does not define, is not among them. *)
Inductive op :=
| SetDeclContext (DC : ptr)
| SetType (T : Type_.t)
| OverwriteType (T : Type_.t)
| SetHasFixedLifetime (flag : bool)
| SetNeverUsedAsLValue (flag : bool).

Definition step (o : op) (V : t) : result t :=
  match o with
  | SetDeclContext DC => Ok (setDeclContext DC V)
  | SetType T => setType T V
  | OverwriteType T => Ok (overwriteType T V)
  | SetHasFixedLifetime flag => Ok (setHasFixedLifetime flag V)
  | SetNeverUsedAsLValue flag => Ok (setNeverUsedAsLValue flag V)
  end.

Definition isOverwrite (o : op) : bool :=
  match o with OverwriteType _ => true | _ => false end.
End ValueDecl.

(** ** Concrete kinds deriving from [Decl] *)

Module ExtensionDecl.
Record t := mk {
  base : Decl.t;
  base_DeclContext : DeclContext.t;
  ExtensionLoc : SourceLoc.t;
  ExtendedType : Type_.t;
  Members : list ptr
}.
Definition ctor (ExtensionLoc : SourceLoc.t) (ExtendedType : Type_.t)
    (Members : list ptr) (Parent : ptr) : t :=
  {| base := Decl.ctor DeclKind.Extension Parent;
     base_DeclContext := DeclContext.ctor DeclContext.ExtensionDecl Parent;
     ExtensionLoc := ExtensionLoc; ExtendedType := ExtendedType;
     Members := Members |}.
Definition getLocStart (D : t) : SourceLoc.t := ExtensionLoc D.
Definition classof (D : Decl.t) : bool := Decl.getKind D =? DeclKind.Extension.
End ExtensionDecl.

Module PatternBindingDecl.
Record t := mk { base : Decl.t; VarLoc : SourceLoc.t; Pat : ptr; Init : ptr }.
Definition ctor (VarLoc : SourceLoc.t) (Pat E Parent : ptr) : t :=
  {| base := Decl.ctor DeclKind.PatternBinding Parent;
     VarLoc := VarLoc; Pat := Pat; Init := E |}.
Definition getLocStart (D : t) : SourceLoc.t := VarLoc D.
Definition getInit (D : t) : ptr := Init D.
Definition setInit (E : ptr) (D : t) : t :=
  {| base := base D; VarLoc := VarLoc D; Pat := Pat D; Init := E |}.
Definition classof (D : Decl.t) : bool :=
  Decl.getKind D =? DeclKind.PatternBinding.
End PatternBindingDecl.

Module TopLevelCodeDecl.
(** [Body] is a [PointerUnion<Expr*, Stmt*>]. *)
Record t := mk {
  base : Decl.t;
  base_DeclContext : DeclContext.t;
  Body : PointerUnion.t
}.

Definition ctor (Parent : ptr) : t :=
  {| base := Decl.ctor DeclKind.TopLevelCode Parent;
     base_DeclContext := DeclContext.ctor DeclContext.TopLevelCodeDecl Parent;
     Body := PointerUnion.init |}.

Definition getBody (D : t) : PointerUnion.t := Body D.
(** [void setBody(Expr *E) { Body = E; }] *)
Definition setBody_Expr (E : ptr) (D : t) : t :=
  {| base := base D; base_DeclContext := base_DeclContext D;
     Body := PointerUnion.assign_PT1 E (Body D) |}.
(** [void setBody(Stmt *S) { Body = S; }] *)
Definition setBody_Stmt (St : ptr) (D : t) : t :=
  {| base := base D; base_DeclContext := base_DeclContext D;
     Body := PointerUnion.assign_PT2 St (Body D) |}.
Definition setDeclContext (DC : ptr) (D : t) : t :=
  {| base := Decl.setDeclContext DC (base D);
     base_DeclContext := base_DeclContext D; Body := Body D |}.

Definition classof (D : Decl.t) : bool :=
  Decl.getKind D =? DeclKind.TopLevelCode.

(** What the body holds: the expression, the statement. *)
Definition bodyExpr (D : t) : ptr := PointerUnion.dyn_cast_PT1 (getBody D).
Definition bodyStmt (D : t) : ptr := PointerUnion.dyn_cast_PT2 (getBody D).
Definition bodyIsEmpty (D : t) : bool := PointerUnion.isNull (getBody D).

Inductive op :=
| SetDeclContext (DC : ptr)
| SetBodyExpr (E : ptr)
| SetBodyStmt (St : ptr).

Definition step (o : op) (D : t) : result t :=
  match o with
  | SetDeclContext DC => Ok (setDeclContext DC D)
  | SetBodyExpr E => Ok (setBody_Expr E D)
  | SetBodyStmt St => Ok (setBody_Stmt St D)
  end.
End TopLevelCodeDecl.

Module SubscriptDecl.
Record t := mk {
  base : Decl.t;
  SubscriptLoc : SourceLoc.t;
  ArrowLoc : SourceLoc.t;
  Indices : ptr;
  ElementTy : Type_.t;
  Braces : SourceRange.t;
  Get : ptr;
  Set_ : ptr
}.
Definition ctor (SubscriptLoc : SourceLoc.t) (Indices : ptr)
    (ArrowLoc : SourceLoc.t) (ElementTy : Type_.t) (Braces : SourceRange.t)
    (Get Set_ Parent : ptr) : t :=
  {| base := Decl.ctor DeclKind.Subscript Parent;
     SubscriptLoc := SubscriptLoc; ArrowLoc := ArrowLoc; Indices := Indices;
     ElementTy := ElementTy; Braces := Braces; Get := Get; Set_ := Set_ |}.
Definition getLocStart (D : t) : SourceLoc.t := SubscriptLoc D.
Definition getGetter (D : t) : ptr := Get D.
Definition getSetter (D : t) : ptr := Set_ D.
Definition classof (D : Decl.t) : bool := Decl.getKind D =? DeclKind.Subscript.
End SubscriptDecl.

(** ** Concrete kinds deriving from [ValueDecl] *)

Module TypeAliasDecl.
(** The constructor is defined out of line and is not modelled. *)
Record t := mk {
  base : ValueDecl.t;
  AliasTy : ptr;
  TypeAliasLoc : SourceLoc.t;
  UnderlyingTy : Type_.t
}.
Definition getLocStart (D : t) : SourceLoc.t := TypeAliasLoc D.
Definition hasUnderlyingType (D : t) : bool := negb (Type_.isNull (UnderlyingTy D)).
Definition getUnderlyingType (D : t) : result Type_.t :=
  bind (assert (negb (Type_.isNull (UnderlyingTy D)))
               "getting invalid underlying type")
       (fun _ => Ok (UnderlyingTy D)).
Definition overwriteUnderlyingType (T : Type_.t) (D : t) : t :=
  {| base := base D; AliasTy := AliasTy D; TypeAliasLoc := TypeAliasLoc D;
     UnderlyingTy := T |}.
Definition setUnderlyingType (T : Type_.t) (D : t) : result t :=
  bind (assert (Type_.isNull (UnderlyingTy D))
               "changing underlying type of type-alias")
       (fun _ => Ok (overwriteUnderlyingType T D)).
Definition classof (D : Decl.t) : bool := Decl.getKind D =? DeclKind.TypeAlias.
End TypeAliasDecl.

Module VarDecl.
Record GetSetRecord := mkGetSet {
  Braces : SourceRange.t;
  Get : ptr;
  Set_ : ptr
}.

(** [GetSet] points to a record of the node's own, or is null. *)
Record t := mk {
  base : ValueDecl.t;
  VarLoc : SourceLoc.t;
  GetSet : option GetSetRecord
}.

Definition ctor (VarLoc : SourceLoc.t) (Name : Identifier) (Ty : Type_.t)
    (DC : ptr) : t :=
  {| base := ValueDecl.ctor DeclKind.Var DC Name Ty;
     VarLoc := VarLoc; GetSet := None |}.

Definition getVarLoc (D : t) : SourceLoc.t := VarLoc D.
Definition getLocStart (D : t) : SourceLoc.t := VarLoc D.

Definition isProperty (D : t) : bool :=
  match GetSet D with Some _ => true | None => false end.

Definition getGetter (D : t) : ptr :=
  match GetSet D with Some r => Get r | None => nullptr end.
Definition getSetter (D : t) : ptr :=
  match GetSet D with Some r => Set_ r | None => nullptr end.

(** Modelled from the spec: [VarDecl::setProperty] is declared in the
    header and defined out of line.  It is "the property-installation
    operation" that "simultaneously installs a property record and its
    brace range" (sections 6 and 8); the record is allocated in the
    [ASTContext] passed as first argument, which only owns it. *)
Definition setProperty (LBraceLoc : SourceLoc.t) (Get Set_ : ptr)
    (RBraceLoc : SourceLoc.t) (D : t) : t :=
  {| base := base D; VarLoc := VarLoc D;
     GetSet := Some {| Braces := {| SourceRange.Start := LBraceLoc;
                                    SourceRange.End_ := RBraceLoc |};
                       Get := Get; Set_ := Set_ |} |}.

Definition classof (D : Decl.t) : bool := Decl.getKind D =? DeclKind.Var.

Definition asDecl (D : t) : Decl.t := ValueDecl.asDecl (base D).

(** The mutators of a [VarDecl]: those of its [ValueDecl] base, and the
    installation of a property record. *)
Inductive op :=
| Base (o : ValueDecl.op)
| SetProperty (LBraceLoc : SourceLoc.t) (Get Set_ : ptr) (RBraceLoc : SourceLoc.t).

Definition step (o : op) (D : t) : result t :=
  match o with
  | Base o' =>
      bind (ValueDecl.step o' (base D))
           (fun b => Ok {| base := b; VarLoc := VarLoc D; GetSet := GetSet D |})
  | SetProperty L G S' R => Ok (setProperty L G S' R D)
  end.
End VarDecl.

Module FuncDecl.
(** [GetOrSetDecl] is a [PointerIntPair<Decl *, 1, bool>]; it has no
    initialiser in the constructor and is default-constructed. *)
Record t := mk {
  base : ValueDecl.t;
  StaticLoc : SourceLoc.t;
  FuncLoc : SourceLoc.t;
  Body : ptr;
  GetOrSetDecl : PointerIntPair.t
}.

Definition ctor (StaticLoc FuncLoc : SourceLoc.t) (Name : Identifier)
    (Ty : Type_.t) (Body DC : ptr) : t :=
  {| base := ValueDecl.ctor DeclKind.Func DC Name Ty;
     StaticLoc := StaticLoc; FuncLoc := FuncLoc; Body := Body;
     GetOrSetDecl := PointerIntPair.init |}.

Definition isStatic (F : t) : bool := SourceLoc.isValid (StaticLoc F).
Definition getBody (F : t) : ptr := Body F.
Definition setBody (NewBody : ptr) (F : t) : t :=
  {| base := base F; StaticLoc := StaticLoc F; FuncLoc := FuncLoc F;
     Body := NewBody; GetOrSetDecl := GetOrSetDecl F |}.

Definition getStaticLoc (F : t) : SourceLoc.t := StaticLoc F.
Definition getFuncLoc (F : t) : SourceLoc.t := FuncLoc F.

Definition getLocStart (F : t) : SourceLoc.t :=
  if SourceLoc.isValid (StaticLoc F) then StaticLoc F else FuncLoc F.

Definition assignGetOrSetDecl (V : PointerIntPair.t) (F : t) : t :=
  {| base := base F; StaticLoc := StaticLoc F; FuncLoc := FuncLoc F;
     Body := Body F; GetOrSetDecl := V |}.

(** [GetOrSetDecl.setPointer(D); GetOrSetDecl.setInt(false);] *)
Definition makeGetter (D : ptr) (F : t) : t :=
  assignGetOrSetDecl
    (PointerIntPair.setInt false (PointerIntPair.setPointer D (GetOrSetDecl F))) F.

(** [GetOrSetDecl.setPointer(D); GetOrSetDecl.setInt(true);] *)
Definition makeSetter (D : ptr) (F : t) : t :=
  assignGetOrSetDecl
    (PointerIntPair.setInt true (PointerIntPair.setPointer D (GetOrSetDecl F))) F.

Definition getGetterDecl (F : t) : ptr :=
  if PointerIntPair.getInt (GetOrSetDecl F) then nullptr
  else PointerIntPair.getPointer (GetOrSetDecl F).

Definition getSetterDecl (F : t) : ptr :=
  if PointerIntPair.getInt (GetOrSetDecl F)
  then PointerIntPair.getPointer (GetOrSetDecl F) else nullptr.

Definition classof (D : Decl.t) : bool := Decl.getKind D =? DeclKind.Func.

Definition asDecl (F : t) : Decl.t := ValueDecl.asDecl (base F).

(** The mutators of a [FuncDecl]: those of its [ValueDecl] base and its
    own. *)
Inductive op :=
| Base (o : ValueDecl.op)
| SetBody (NewBody : ptr)
| MakeGetter (D : ptr)
| MakeSetter (D : ptr).

Definition step (o : op) (F : t) : result t :=
  match o with
  | Base o' =>
      bind (ValueDecl.step o' (base F))
           (fun b => Ok {| base := b; StaticLoc := StaticLoc F;
                           FuncLoc := FuncLoc F; Body := Body F;
                           GetOrSetDecl := GetOrSetDecl F |})
  | SetBody B => Ok (setBody B F)
  | MakeGetter D => Ok (makeGetter D F)
  | MakeSetter D => Ok (makeSetter D F)
  end.

Definition isMake (o : op) : bool :=
  match o with MakeGetter _ | MakeSetter _ => true | _ => false end.

(** The states a function node goes through: built by the constructor,
    then changed by its mutators. *)
Inductive reachable : t -> Prop :=
| reachable_ctor StaticLoc FuncLoc Name Ty Body DC :
    reachable (ctor StaticLoc FuncLoc Name Ty Body DC)
| reachable_step o F F' :
    reachable F -> step o F = Ok F' -> reachable F'.
End FuncDecl.

Module OneOfElementDecl.
Record t := mk {
  base : ValueDecl.t;
  IdentifierLoc : SourceLoc.t;
  ArgumentType : Type_.t
}.
Definition ctor (IdentifierLoc : SourceLoc.t) (Name : Identifier)
    (Ty ArgumentType : Type_.t) (DC : ptr) : t :=
  {| base := ValueDecl.ctor DeclKind.OneOfElement DC Name Ty;
     IdentifierLoc := IdentifierLoc; ArgumentType := ArgumentType |}.
Definition getArgumentType (D : t) : Type_.t := ArgumentType D.
Definition getLocStart (D : t) : SourceLoc.t := IdentifierLoc D.
Definition classof (D : Decl.t) : bool :=
  Decl.getKind D =? DeclKind.OneOfElement.
End OneOfElementDecl.

(** ** [ImportDecl] and its trailing access path *)

Module ImportDecl.
(** [std::pair<Identifier, SourceLoc>] *)
Definition AccessPathElement : Type := Identifier * SourceLoc.t.

(** The fixed-size part of the object.  The path elements follow it in
    the same allocation and are no data member.  [NumPathElements] is an
    [unsigned]: what is stored in it is stored modulo 2^32
    ([to_unsigned]). *)
Record t := mk {
  base : Decl.t;
  ImportLoc : SourceLoc.t;
  NumPathElements : N
}.

(** The conversion of a size to [unsigned], a type of 32 bits. *)
Definition to_unsigned (n : N) : N := (n mod 2 ^ 32)%N.

Definition getLocStart (D : t) : SourceLoc.t := ImportLoc D.
Definition classof (D : Decl.t) : bool := Decl.getKind D =? DeclKind.Import.

(** What the arena holds at an address: the fixed-size part of a node,
    or one element of a path. *)
Inductive object :=
| Node (D : t)
| PathElement (e : AccessPathElement).

(** The arena of a compilation context: the objects allocated so far and
    the first free address. *)
Record ASTContext := mkContext { cells : gmap N object; brk : addr }.

Definition emptyContext : ASTContext := {| cells := ∅; brk := 0%N |}.

(** [llvm::ArrayRef<AccessPathElement>]: a view of [Length] elements
    starting at [Data]. *)
Record ArrayRef := mkArrayRef { Data : addr; Length : N }.

Section Layout.
(** [sizeof(ImportDecl)] and [sizeof(AccessPathElement)]. *)
Variables sizeof_ImportDecl sizeof_AccessPathElement : N.

(** The elements an array view of [n] elements at [p] shows. *)
Fixpoint elements (m : gmap N object) (p : addr) (n : nat)
  : option (list AccessPathElement) :=
  match n with
  | O => Some []
  | S n' =>
      match m !! p with
      | Some (PathElement e) =>
          match elements m (p + sizeof_AccessPathElement)%N n' with
          | Some es => Some (e :: es)
          | None => None
          end
      | _ => None
      end
  end.

Definition ArrayRef_vec (m : gmap N object) (A : ArrayRef)
  : option (list AccessPathElement) :=
  elements m (Data A) (N.to_nat (Length A)).

(** [reinterpret_cast<AccessPathElement*>(this+1)] *)
Definition getPathBuffer (this : addr) : addr :=
  (this + 1 * sizeof_ImportDecl)%N.

(** [ArrayRef<AccessPathElement>(getPathBuffer(), NumPathElements)],
    the members being read through [this]. *)
Definition getAccessPath (m : gmap N object) (this : addr) : option ArrayRef :=
  match m !! this with
  | Some (Node D) =>
      Some {| Data := getPathBuffer this; Length := NumPathElements D |}
  | _ => None
  end.

(** The path read back from a node: the contents of the view that
    [getAccessPath] returns. *)
Definition readAccessPath (C : ASTContext) (this : addr)
  : option (list AccessPathElement) :=
  match getAccessPath (cells C) this with
  | Some A => ArrayRef_vec (cells C) A
  | None => None
  end.

Definition align_up (p a : N) : N := ((p + a - 1) / a * a)%N.

(** Modelled from the spec: [ASTContext::Allocate] is not part of this
    header.  The arena hands out fresh storage of the size and
    alignment asked for and never frees it (sections 3 and 4.2). *)
Definition Allocate (bytes alignment : N) (C : ASTContext) : addr * ASTContext :=
  let p := align_up (brk C) alignment in
  (p, {| cells := cells C; brk := (p + bytes)%N |}).

(** Copying the path elements into place, one after the other. *)
Fixpoint store_elements (p : addr) (Path : list AccessPathElement)
    (m : gmap N object) : gmap N object :=
  match Path with
  | [] => m
  | e :: Path' =>
      store_elements (p + sizeof_AccessPathElement)%N Path'
                     (<[p := PathElement e]> m)
  end.

(** Modelled from the spec: the constructor of [ImportDecl] is declared
    in the header and defined out of line.  It builds the node in the
    storage it is given, records the number of path elements, as far as
    the [unsigned] field holds it, and copies "the path elements into
    place" behind the fixed-size part (section 4.4). *)
Definition ctor (this : addr) (DC : ptr) (ImportLoc : SourceLoc.t)
    (Path : list AccessPathElement) (m : gmap N object) : gmap N object :=
  store_elements (getPathBuffer this) Path
    (<[this := Node {| base := Decl.ctor DeclKind.Import DC;
                       ImportLoc := ImportLoc;
                       NumPathElements :=
                         to_unsigned (N.of_nat (length Path)) |}]> m).

(** Modelled from the spec: [ImportDecl::create] is declared in the
    header and defined out of line.  It must "compute the required
    combined size from the path length before allocating", so that node
    and path "occupy one contiguous allocation", and then construct the
    node there (section 4.4). *)
Definition create (C : ASTContext) (DC : ptr) (ImportLoc : SourceLoc.t)
    (Path : list AccessPathElement) : addr * ASTContext :=
  let '(buffer, C1) :=
    Allocate (sizeof_ImportDecl
              + N.of_nat (length Path) * sizeof_AccessPathElement)%N
             Decl.Alignment C in
  (buffer, {| cells := ctor buffer DC ImportLoc Path (cells C1);
              brk := brk C1 |}).

(** [setDeclContext], inherited from [Decl], called on the node at
    [this].  A call through a pointer to something else has no defined
    behaviour; it stops the run. *)
Definition setDeclContext (this : addr) (DC : ptr) (C : ASTContext)
  : result ASTContext :=
  match cells C !! this with
  | Some (Node D) =>
      Ok {| cells := <[this := Node {| base := Decl.setDeclContext DC (base D);
                                       ImportLoc := ImportLoc D;
                                       NumPathElements := NumPathElements D |}]>
                       (cells C);
            brk := brk C |}
  | _ => AssertionFailed "no ImportDecl at this address"
  end.

(** What can happen to an arena that holds import nodes: another node is
    created, or the one mutator import nodes have is called. *)
Inductive op :=
| Create (DC : ptr) (ImportLoc : SourceLoc.t) (Path : list AccessPathElement)
| SetDeclContext (this : addr) (DC : ptr).

Definition step (o : op) (C : ASTContext) : result ASTContext :=
  match o with
  | Create DC L Path => Ok (snd (create C DC L Path))
  | SetDeclContext this DC => setDeclContext this DC C
  end.

(** Every object lies below the first free address. *)
Definition wf (C : ASTContext) : Prop :=
  forall a o, cells C !! a = Some o -> (a < brk C)%N.

(** The node at [this] carries the path [P]: its fixed-size part is in
    place with the length of [P], and the elements of [P] follow it. *)
Definition holds_path (C : ASTContext) (this : addr)
    (P : list AccessPathElement) : Prop :=
  exists D : t,
    cells C !! this = Some (Node D)
    /\ NumPathElements D = N.of_nat (length P)
    /\ elements (cells C) (getPathBuffer this) (length P) = Some P.
End Layout.
End ImportDecl.

(** ** The dynamic type test *)

Module Casting.
Import DeclNodes.

(** [isa<C>(D)] is [C::classof(D)]: the test each class implements. *)
Definition classof (c : Class) : Decl.t -> bool :=
  match c with
  | Decl => Decl.classof
  | NamedDecl => NamedDecl.classof
  | ValueDecl => ValueDecl.classof
  | Leaf Import => ImportDecl.classof
  | Leaf Extension => ExtensionDecl.classof
  | Leaf PatternBinding => PatternBindingDecl.classof
  | Leaf TopLevelCode => TopLevelCodeDecl.classof
  | Leaf Subscript => SubscriptDecl.classof
  | Leaf TypeAlias => TypeAliasDecl.classof
  | Leaf Var => VarDecl.classof
  | Leaf Func => FuncDecl.classof
  | Leaf OneOfElement => OneOfElementDecl.classof
  end.

(** The tag range of an abstract category. *)
Definition in_range (first last kind : DeclKind.t) : Prop :=
  first <= kind <= last.
End Casting.

(** ** Kind files in general *)

(** The enumeration of lines 46-51 is given by whatever [DeclNodes.def]
    holds.  Two notions about such a file, independent of its contents. *)
Module DefFile.
Import DeclNodes.

(** The kinds a file declares, in the order of its [DECL] lines. *)
Fixpoint decl_ids (es : list entry) : list Id :=
  match es with
  | [] => []
  | DECL i _ :: es' => i :: decl_ids es'
  | DECL_RANGE _ _ _ :: es' => decl_ids es'
  end.

(** A file is well placed when no kind and no range is declared twice, a
    range starts at a kind declared before it, and closes at the kind
    declared last before it.  [seen] and [ranges] are the kinds and ranges
    declared so far. *)
Fixpoint well_placed (seen : list Id) (ranges : list RangeId)
    (es : list entry) : bool :=
  match es with
  | [] => true
  | DECL i _ :: es' =>
      bool_decide (i ∉ seen) && well_placed (seen ++ [i]) ranges es'
  | DECL_RANGE r f l :: es' =>
      bool_decide (r ∉ ranges) && bool_decide (f ∈ seen)
      && bool_decide (last seen = Some l)
      && well_placed seen (r :: ranges) es'
  end.
End DefFile.

(** ** Sequences of writes *)

(** The value of a field after a sequence of operations, of which [sel]
    picks the writes to that field: the last write, or the initial value. *)
Definition last_write {Op A : Type} (sel : Op -> option A) (os : list Op)
    (init : A) : A :=
  fold_left (fun acc o => default acc (sel o)) os init.

Module ValueDeclWrites.
Import ValueDecl.

Definition isSetType (o : op) : bool :=
  match o with SetType _ => true | _ => false end.

Definition writes_Context (o : op) : option ptr :=
  match o with SetDeclContext DC => Some DC | _ => None end.
Definition writes_HasFixedLifetime (o : op) : option bool :=
  match o with SetHasFixedLifetime flag => Some flag | _ => None end.
Definition writes_NeverUsedAsLValue (o : op) : option bool :=
  match o with SetNeverUsedAsLValue flag => Some flag | _ => None end.

Definition getDeclContext (V : t) : ptr := Decl.getDeclContext (asDecl V).
End ValueDeclWrites.

Module FuncDeclWrites.
Import FuncDecl.

(** What [getGetterDecl] and [getSetterDecl] return after the operation,
    when it writes the linkage. *)
Definition writes_linkage (o : op) : option (ptr * ptr) :=
  match o with
  | MakeGetter D => Some (D, nullptr)
  | MakeSetter D => Some (nullptr, D)
  | _ => None
  end.

Definition linkage (F : t) : ptr * ptr := (getGetterDecl F, getSetterDecl F).
End FuncDeclWrites.

Module TopLevelCodeDeclWrites.
Import TopLevelCodeDecl.

(** The expression and the statement the body holds after the operation,
    when it writes the body. *)
Definition writes_body (o : op) : option (ptr * ptr) :=
  match o with
  | SetBodyExpr E => Some (E, nullptr)
  | SetBodyStmt St => Some (nullptr, St)
  | SetDeclContext _ => None
  end.

Definition body (D : t) : ptr * ptr := (bodyExpr D, bodyStmt D).
End TopLevelCodeDeclWrites.

Module VarDeclWrites.
Import VarDecl.

(** The mutators a [VarDecl] inherits from the Valued layer. *)
Definition isBase (o : op) : bool :=
  match o with Base _ => true | SetProperty _ _ _ _ => false end.
End VarDeclWrites.

(** The mutators of a [TypeAliasDecl]: those of its [ValueDecl] base and
    its own. *)
Module TypeAliasDeclOps.
Import TypeAliasDecl.

Definition getTypeAliasLoc (D : t) : SourceLoc.t := TypeAliasLoc D.
Definition setTypeAliasLoc (loc : SourceLoc.t) (D : t) : t :=
  {| base := base D; AliasTy := AliasTy D; TypeAliasLoc := loc;
     UnderlyingTy := UnderlyingTy D |}.

Inductive op :=
| Base (o : ValueDecl.op)
| SetTypeAliasLoc (loc : SourceLoc.t)
| SetUnderlyingType (T : Type_.t)
| OverwriteUnderlyingType (T : Type_.t).

Definition step (o : op) (D : t) : result t :=
  match o with
  | Base o' =>
      bind (ValueDecl.step o' (base D))
           (fun b => Ok {| base := b; AliasTy := AliasTy D;
                           TypeAliasLoc := TypeAliasLoc D;
                           UnderlyingTy := UnderlyingTy D |})
  | SetTypeAliasLoc loc => Ok (setTypeAliasLoc loc D)
  | SetUnderlyingType T => setUnderlyingType T D
  | OverwriteUnderlyingType T => Ok (overwriteUnderlyingType T D)
  end.

Definition isOverwriteUnderlying (o : op) : bool :=
  match o with OverwriteUnderlyingType _ => true | _ => false end.

(** The mutators a [TypeAliasDecl] inherits from the Valued layer. *)
Definition isBase (o : op) : bool :=
  match o with Base _ => true | _ => false end.
End TypeAliasDeclOps.

(** ** Sample nodes

    Concrete nodes and arenas on which the properties below are
    instantiated. *)

Module Samples.
Definition loc (a : N) : SourceLoc.t := {| SourceLoc.Value := Some a |}.
Definition type_at (a : N) : Type_.t := {| Type_.Ptr := Some a |}.

Definition value_x : ValueDecl.t :=
  ValueDecl.ctor DeclKind.Var nullptr "x" Type_.null.
Definition value_y : ValueDecl.t :=
  ValueDecl.ctor DeclKind.Var nullptr "y" (type_at 1).
Definition var_x : VarDecl.t := VarDecl.ctor (loc 4) "x" Type_.null nullptr.
Definition property_x : VarDecl.t :=
  VarDecl.setProperty (loc 8) (Some 64%N) (Some 72%N) (loc 12) var_x.
Definition func_f : FuncDecl.t :=
  FuncDecl.ctor SourceLoc.invalid (loc 20) "f" Type_.null nullptr nullptr.
Definition static_func_g : FuncDecl.t :=
  FuncDecl.ctor (loc 30) (loc 37) "g" Type_.null nullptr nullptr.
Definition extension : ExtensionDecl.t :=
  ExtensionDecl.ctor (loc 40) (type_at 1) [] nullptr.
Definition code : TopLevelCodeDecl.t := TopLevelCodeDecl.ctor nullptr.

(** An LP64 layout. *)
Definition sizeof_ImportDecl : N := 32.
Definition sizeof_AccessPathElement : N := 16.

(** [import swift.int] *)
Definition import_path : list ImportDecl.AccessPathElement :=
  [("swift"%string, loc 107); ("int"%string, loc 113)].
Definition arena : ImportDecl.ASTContext :=
  snd (ImportDecl.create sizeof_ImportDecl sizeof_AccessPathElement
         ImportDecl.emptyContext nullptr (loc 100) import_path).
Definition arena_ops : list ImportDecl.op :=
  [ImportDecl.SetDeclContext 0%N (Some 500%N);
   ImportDecl.Create nullptr (loc 200) [("Builtin"%string, loc 207)]].
End Samples.

(** The mutators of a [PatternBindingDecl]: [setInit], and the
    [setDeclContext] it inherits. *)
Module PatternBindingDeclOps.
Import PatternBindingDecl.

Definition getVarLoc (D : t) : SourceLoc.t := VarLoc D.
Definition getPattern (D : t) : ptr := Pat D.
Definition setDeclContext (DC : ptr) (D : t) : t :=
  {| base := Decl.setDeclContext DC (base D); VarLoc := VarLoc D;
     Pat := Pat D; Init := Init D |}.

Inductive op :=
| SetDeclContext (DC : ptr)
| SetInit (E : ptr).

Definition step (o : op) (D : t) : result t :=
  match o with
  | SetDeclContext DC => Ok (setDeclContext DC D)
  | SetInit E => Ok (setInit E D)
  end.

Definition writes_Init (o : op) : option ptr :=
  match o with SetInit E => Some E | SetDeclContext _ => None end.
End PatternBindingDeclOps.

Module MoreSamples.
Import Samples.

(** [typealias t : ...], its underlying type resolved, its own type not
    yet. *)
Definition alias_t : TypeAliasDecl.t :=
  {| TypeAliasDecl.base := ValueDecl.ctor DeclKind.TypeAlias nullptr "t" Type_.null;
     TypeAliasDecl.AliasTy := nullptr;
     TypeAliasDecl.TypeAliasLoc := loc 50;
     TypeAliasDecl.UnderlyingTy := type_at 3 |}.

Definition value_ops : list ValueDecl.op :=
  [ValueDecl.SetType (type_at 1); ValueDecl.SetDeclContext (Some 4%N);
   ValueDecl.SetHasFixedLifetime true; ValueDecl.SetDeclContext (Some 6%N)].
Definition typed_value_ops : list ValueDecl.op :=
  [ValueDecl.SetDeclContext (Some 4%N); ValueDecl.SetNeverUsedAsLValue true].
Definition func_ops : list FuncDecl.op :=
  [FuncDecl.MakeSetter (Some 9%N); FuncDecl.SetBody (Some 3%N);
   FuncDecl.MakeGetter (Some 8%N);
   FuncDecl.Base (ValueDecl.SetType (type_at 1))].
Definition code_ops : list TopLevelCodeDecl.op :=
  [TopLevelCodeDecl.SetBodyExpr (Some 1%N);
   TopLevelCodeDecl.SetDeclContext (Some 4%N);
   TopLevelCodeDecl.SetBodyStmt (Some 2%N)].
Definition var_ops : list VarDecl.op :=
  [VarDecl.Base (ValueDecl.OverwriteType (type_at 1));
   VarDecl.Base (ValueDecl.SetHasFixedLifetime true)].
Definition alias_ops : list TypeAliasDeclOps.op :=
  [TypeAliasDeclOps.Base (ValueDecl.SetType (type_at 7));
   TypeAliasDeclOps.SetTypeAliasLoc (loc 51);
   TypeAliasDeclOps.Base (ValueDecl.OverwriteType (type_at 8))].
Definition underlying_ops : list TypeAliasDeclOps.op :=
  [TypeAliasDeclOps.OverwriteUnderlyingType (type_at 5);
   TypeAliasDeclOps.SetTypeAliasLoc (loc 51)].

Definition binding : PatternBindingDecl.t :=
  PatternBindingDecl.ctor (loc 60) (Some 80%N) nullptr nullptr.
Definition binding_ops : list PatternBindingDeclOps.op :=
  [PatternBindingDeclOps.SetInit (Some 88%N);
   PatternBindingDeclOps.SetDeclContext (Some 4%N);
   PatternBindingDeclOps.SetInit (Some 96%N)].

(** A path of 2^32 elements, one more than an [unsigned] counts. *)
Definition long_path : list ImportDecl.AccessPathElement :=
  replicate (N.to_nat (2 ^ 32)) ("a"%string, loc 1).

(** A file whose range does not close at the kind declared last. *)
Definition misplaced : list DeclNodes.entry :=
  [ DeclNodes.DECL DeclNodes.Import DeclNodes.Decl;
    DeclNodes.DECL DeclNodes.Var DeclNodes.ValueDecl;
    DeclNodes.DECL DeclNodes.Func DeclNodes.ValueDecl;
    DeclNodes.DECL_RANGE DeclNodes.Value DeclNodes.Var DeclNodes.Var;
    DeclNodes.DECL DeclNodes.Extension DeclNodes.Decl ].
End MoreSamples.

(** * Properties *)

(** ** Kind tags and the dynamic type test *)

Section KindFacts.
Import DeclNodes.

Example enumerators_expanded :
  DeclKind.enumerators =
    [ (DeclKind.E Import, 0); (DeclKind.E Extension, 1);
      (DeclKind.E PatternBinding, 2); (DeclKind.E TopLevelCode, 3);
      (DeclKind.E Subscript, 4); (DeclKind.E TypeAlias, 5);
      (DeclKind.E Var, 6); (DeclKind.E Func, 7);
      (DeclKind.E OneOfElement, 8);
      (DeclKind.First_ Value, 5); (DeclKind.Last_ Value, 8);
      (DeclKind.First_ Named, 5); (DeclKind.Last_ Named, 8) ].
Proof. reflexivity. Qed.

Lemma tag_range (k : Id) : 0 <= DeclKind.tag k < 2 ^ Decl.NumDeclBits.
Proof. destruct k; vm_compute; split; congruence. Qed.

Lemma tag_inj (k k' : Id) : DeclKind.tag k = DeclKind.tag k' -> k = k'.
Proof. destruct k, k'; vm_compute; congruence. Qed.

(** The bit-field is wide enough: the tag read back is the tag the
    constructor was given. *)
Lemma getKind_ctor (k : Id) (DC : ptr) :
  Decl.getKind (Decl.ctor (DeclKind.tag k) DC) = DeclKind.tag k.
Proof. destruct k; reflexivity. Qed.

Lemma getKind_setDeclContext (DC : ptr) (D : Decl.t) :
  Decl.getKind (Decl.setDeclContext DC D) = Decl.getKind D.
Proof. reflexivity. Qed.

(** A class test succeeds exactly on the nodes whose class is that class
    or derives from it. *)
Lemma classof_derives (k : Id) (c : Class) (D : Decl.t) :
  Decl.getKind D = DeclKind.tag k ->
  Casting.classof c D = derives_from (Leaf k) c.
Proof.
  intros HK.
  destruct c as [ | | | i]; [ | | | destruct i];
    cbn [Casting.classof];
    unfold Decl.classof, NamedDecl.classof, ValueDecl.classof,
      ImportDecl.classof, ExtensionDecl.classof, PatternBindingDecl.classof,
      TopLevelCodeDecl.classof, SubscriptDecl.classof, TypeAliasDecl.classof,
      VarDecl.classof, FuncDecl.classof, OneOfElementDecl.classof;
    rewrite ?HK; destruct k; reflexivity.
Qed.

Lemma derives_from_refl (c : Class) : derives_from c c = true.
Proof. unfold derives_from; simpl. destruct (decide (c = c)); congruence. Qed.

Lemma derives_from_other_leaf (k k' : Id) :
  k' <> k -> derives_from (Leaf k) (Leaf k') = false.
Proof. destruct k, k'; intros H; try reflexivity; congruence. Qed.
End KindFacts.

Section DynamicTypeTest.
Import DeclNodes.

Local Ltac solve_member :=
  solve [ rewrite ?elem_of_cons, ?elem_of_nil in *; intuition congruence ].

(** C3.  For a node whose kind tag is that of the concrete kind [k]: the
    test against its own class succeeds; the test against any other
    concrete class fails; the test against an abstract category succeeds
    when the class of [k] derives from the category and fails when it
    does not.  For a Var node in particular the tag lies in the Named
    range and in the Valued range, the [ImportDecl] test fails and the
    [ValueDecl] test succeeds. *)
Theorem dynamic_type_test (k : Id) (D : Decl.t) :
  Decl.getKind D = DeclKind.tag k ->
  Casting.classof (Leaf k) D = true
  /\ (forall k', k' <> k -> Casting.classof (Leaf k') D = false)
  /\ (forall c, c = Decl \/ c = NamedDecl \/ c = ValueDecl ->
        (derives_from (Leaf k) c = true -> Casting.classof c D = true)
        /\ (derives_from (Leaf k) c = false -> Casting.classof c D = false))
  /\ (k = Var ->
        Casting.in_range DeclKind.First_NamedDecl DeclKind.Last_NamedDecl
                         (Decl.getKind D)
        /\ Casting.in_range DeclKind.First_ValueDecl DeclKind.Last_ValueDecl
                            (Decl.getKind D)
        /\ ImportDecl.classof D = false
        /\ ValueDecl.classof D = true).
Proof.
  intros HK.
  split; [rewrite (classof_derives k _ D HK); apply derives_from_refl | ].
  split.
  { intros k' Hne. rewrite (classof_derives k _ D HK).
    now apply derives_from_other_leaf. }
  split.
  { intros c _. rewrite (classof_derives k c D HK).
    split; intros Hd; exact Hd. }
  intros ->. unfold Casting.in_range. rewrite HK.
  split; [vm_compute; split; congruence | ].
  split; [vm_compute; split; congruence | ].
  split.
  - apply (classof_derives Var (Leaf Import) D HK).
  - apply (classof_derives Var ValueDecl D HK).
Qed.

Lemma dynamic_type_test_witness :
  Decl.getKind (VarDecl.asDecl Samples.var_x) = DeclKind.tag Var
  /\ VarDecl.classof (VarDecl.asDecl Samples.var_x) = true
  /\ Import <> Var
  /\ ImportDecl.classof (VarDecl.asDecl Samples.var_x) = false
  /\ derives_from (Leaf Var) NamedDecl = true
  /\ NamedDecl.classof (VarDecl.asDecl Samples.var_x) = true
  /\ ValueDecl.classof (VarDecl.asDecl Samples.var_x) = true
  /\ Decl.getKind (ExtensionDecl.base Samples.extension)
     = DeclKind.tag Extension
  /\ derives_from (Leaf Extension) NamedDecl = false
  /\ NamedDecl.classof (ExtensionDecl.base Samples.extension) = false.
Proof.
  pose proof (dynamic_type_test Var (VarDecl.asDecl Samples.var_x) eq_refl)
    as (H1 & H2 & H3 & H4).
  pose proof (dynamic_type_test Extension
                (ExtensionDecl.base Samples.extension) eq_refl)
    as (_ & _ & H3' & _).
  assert (Hne : Import <> Var) by discriminate.
  split; [reflexivity | ]. split; [exact H1 | ].
  split; [exact Hne | ]. split; [exact (H2 Import Hne) | ].
  split; [reflexivity | ].
  split; [exact (proj1 (H3 NamedDecl (or_intror (or_introl eq_refl))) eq_refl) | ].
  split; [exact (proj2 (proj2 (proj2 (H4 eq_refl)))) | ].
  split; [reflexivity | ]. split; [reflexivity | ].
  exact (proj2 (H3' NamedDecl (or_intror (or_introl eq_refl))) eq_refl).
Defined.

(** C4 as stated does not hold: an extension node derives from neither
    layer and its tag is outside the named-declarations range. *)
Lemma extension_is_not_named :
  derives_from (Leaf Extension) NamedDecl = false
  /\ derives_from (Leaf Extension) ValueDecl = false
  /\ NamedDecl.classof
       (ExtensionDecl.base
          (ExtensionDecl.ctor SourceLoc.invalid Type_.null [] nullptr))
     = false.
Proof. repeat split. Qed.

(** C4, amended.  Every concrete kind derives from the base node.
    TypeAlias, Var, Func and OneOfElement derive from the Valued layer and
    through it from the Named layer; Import, Extension, PatternBinding,
    TopLevelCode and Subscript derive from the base node directly, and
    from neither layer.  The tag of a node lies in the named-declarations
    range exactly for the first four kinds. *)
Theorem concrete_kinds_layers (k : Id) :
  derives_from (Leaf k) Decl = true
  /\ (k ∈ [TypeAlias; Var; Func; OneOfElement] ->
        base (Leaf k) = Some ValueDecl
        /\ derives_from (Leaf k) ValueDecl = true
        /\ derives_from (Leaf k) NamedDecl = true)
  /\ (k ∈ [Import; Extension; PatternBinding; TopLevelCode; Subscript] ->
        base (Leaf k) = Some Decl
        /\ derives_from (Leaf k) ValueDecl = false
        /\ derives_from (Leaf k) NamedDecl = false)
  /\ (forall D, Decl.getKind D = DeclKind.tag k ->
        (Casting.in_range DeclKind.First_NamedDecl DeclKind.Last_NamedDecl
                          (Decl.getKind D)
         <-> k ∈ [TypeAlias; Var; Func; OneOfElement])
        /\ NamedDecl.classof D = derives_from (Leaf k) NamedDecl).
Proof.
  split; [destruct k; reflexivity | ].
  split.
  { intros Hin. destruct k; try (repeat split; reflexivity); solve_member. }
  split.
  { intros Hin. destruct k; try (repeat split; reflexivity); solve_member. }
  intros D HK. split.
  - unfold Casting.in_range. rewrite HK.
    destruct k; split; intros H;
      first [ solve_member
            | vm_compute; split; congruence
            | vm_compute in H; destruct H as [H1 H2]; exfalso;
              first [ apply H1; reflexivity | apply H2; reflexivity ] ].
  - apply (classof_derives k NamedDecl D HK).
Qed.

Lemma concrete_kinds_layers_witness :
  Var ∈ [TypeAlias; Var; Func; OneOfElement]
  /\ derives_from (Leaf Var) NamedDecl = true
  /\ Decl.getKind (VarDecl.asDecl Samples.var_x) = DeclKind.tag Var
  /\ NamedDecl.classof (VarDecl.asDecl Samples.var_x) = true
  /\ Extension ∈ [Import; Extension; PatternBinding; TopLevelCode; Subscript]
  /\ base (Leaf Extension) = Some Decl
  /\ derives_from (Leaf Extension) NamedDecl = false.
Proof.
  assert (HV : Var ∈ [TypeAlias; Var; Func; OneOfElement])
    by (apply list_elem_of_further, list_elem_of_here).
  assert (HE : Extension
               ∈ [Import; Extension; PatternBinding; TopLevelCode; Subscript])
    by (apply list_elem_of_further, list_elem_of_here).
  pose proof (concrete_kinds_layers Var) as (_ & HV1 & _ & HV3).
  pose proof (concrete_kinds_layers Extension) as (_ & _ & HE2 & _).
  split; [exact HV | ].
  split; [exact (proj2 (proj2 (HV1 HV))) | ].
  split; [reflexivity | ].
  split; [exact (proj2 (HV3 (VarDecl.asDecl Samples.var_x) eq_refl)) | ].
  split; [exact HE | ].
  split; [exact (proj1 (HE2 HE)) | exact (proj2 (proj2 (HE2 HE)))].
Defined.
End DynamicTypeTest.

(** ** The set-once type of the Valued layer *)

Section ValuedType.
Import ValueDecl.

Lemma hasType_isNull (V : t) : hasType V = negb (Type_.isNull (Ty V)).
Proof. reflexivity. Qed.

Lemma setType_unset (T : Type_.t) (V : t) :
  hasType V = false -> setType T V = Ok (assignTy T V).
Proof.
  unfold hasType, setType. intros H.
  apply negb_false_iff in H. now rewrite H.
Qed.

Lemma setType_set (T : Type_.t) (V : t) :
  hasType V = true ->
  setType T V = AssertionFailed "changing type of declaration".
Proof.
  unfold hasType, setType. intros H.
  apply negb_true_iff in H. now rewrite H.
Qed.

Lemma setType_inv (T : Type_.t) (V V' : t) :
  setType T V = Ok V' -> hasType V = false /\ V' = assignTy T V.
Proof.
  unfold setType, hasType. destruct (Type_.isNull (Ty V)); simpl; intros H.
  - split; congruence.
  - discriminate.
Qed.

(** Apart from [overwriteType], no mutator takes a type away. *)
Lemma step_keeps_type (o : op) (V V' : t) :
  isOverwrite o = false -> hasType V = true -> step o V = Ok V' ->
  hasType V' = true.
Proof.
  intros Ho HV. destruct o; simpl in *; try discriminate; intros Hs;
    try (injection Hs as <-; exact HV).
  apply setType_inv in Hs as [Hs _]. congruence.
Qed.

Lemma run_keeps_type (os : list op) (V V' : t) :
  Forall (fun o => isOverwrite o = false) os ->
  hasType V = true -> run step os V = Ok V' -> hasType V' = true.
Proof.
  intros Hos. revert V. induction Hos as [ | o os Ho _ IH]; intros V HV; simpl.
  - now intros [= <-].
  - destruct (step o V) as [V1 | msg] eqn:Hs; simpl; [ | discriminate].
    apply IH. exact (step_keeps_type o V V1 Ho HV Hs).
Qed.
End ValuedType.

Section ValuedTypeContract.
Import ValueDecl.

(** C2 as stated does not hold for a null type: a first [setType] with a
    null type leaves the slot unset, so the second call passes its
    assertion; and after [overwriteType] with a null type [getType]
    fails its assertion. *)
Lemma setType_null_then_setType :
  run step [SetType Type_.null; SetType {| Type_.Ptr := Some 1%N |}]
      (ctor DeclKind.Var nullptr "x" Type_.null)
  = Ok (ctor DeclKind.Var nullptr "x" {| Type_.Ptr := Some 1%N |})
  /\ getType (overwriteType Type_.null
                (ctor DeclKind.Var nullptr "x" {| Type_.Ptr := Some 1%N |}))
     = AssertionFailed "declaration has no type set yet".
Proof. split; reflexivity. Qed.

(** C2, amended.  On a node whose type is set, [setType] fails its
    assertion.  After a [setType] with a non-null type, and whatever
    mutators other than [overwriteType] are called in between, a second
    [setType] fails.  [overwriteType] succeeds in every state, and after
    [overwriteType] with a non-null type [getType] returns that type.
    [getType] returns the stored type when [hasType] holds and fails its
    assertion otherwise. *)
Theorem set_once_type (V : t) (T : Type_.t) :
  (hasType V = true -> succeeds (setType T V) = false)
  /\ (forall T1 V1 os V2,
        Type_.isNull T1 = false ->
        setType T1 V = Ok V1 ->
        Forall (fun o => isOverwrite o = false) os ->
        run step os V1 = Ok V2 ->
        succeeds (setType T V2) = false)
  /\ step (OverwriteType T) V = Ok (overwriteType T V)
  /\ (Type_.isNull T = false ->
        hasType (overwriteType T V) = true
        /\ getType (overwriteType T V) = Ok T)
  /\ (hasType V = true -> getType V = Ok (Ty V))
  /\ (hasType V = false -> succeeds (getType V) = false).
Proof.
  split; [ | split; [ | split; [ | split; [ | split]]]].
  - intros H. now rewrite setType_set.
  - intros T1 V1 os V2 HT1 Hset Hos Hrun.
    apply setType_inv in Hset as [_ ->].
    assert (H1 : hasType (assignTy T1 V) = true)
      by (unfold hasType; simpl; now rewrite HT1).
    rewrite (setType_set T V2); [reflexivity | ].
    exact (run_keeps_type os _ V2 Hos H1 Hrun).
  - reflexivity.
  - intros HT. unfold getType, hasType, overwriteType. simpl.
    now rewrite HT.
  - unfold hasType, getType. intros H. now rewrite H.
  - unfold hasType, getType. intros H. now rewrite H.
Qed.

Lemma set_once_type_witness :
  hasType Samples.value_y = true
  /\ succeeds (setType (Samples.type_at 2) Samples.value_y) = false
  /\ Type_.isNull (Samples.type_at 1) = false
  /\ setType (Samples.type_at 1) Samples.value_x
     = Ok (assignTy (Samples.type_at 1) Samples.value_x)
  /\ Forall (fun o => isOverwrite o = false)
            [SetNeverUsedAsLValue true; SetDeclContext (Some 4%N)]
  /\ run step [SetNeverUsedAsLValue true; SetDeclContext (Some 4%N)]
         (assignTy (Samples.type_at 1) Samples.value_x)
     = Ok (setDeclContext (Some 4%N)
             (setNeverUsedAsLValue true
                (assignTy (Samples.type_at 1) Samples.value_x)))
  /\ succeeds
       (setType (Samples.type_at 2)
          (setDeclContext (Some 4%N)
             (setNeverUsedAsLValue true
                (assignTy (Samples.type_at 1) Samples.value_x))))
     = false
  /\ getType (overwriteType (Samples.type_at 2) Samples.value_y)
     = Ok (Samples.type_at 2)
  /\ getType Samples.value_y = Ok (Samples.type_at 1)
  /\ hasType Samples.value_x = false
  /\ succeeds (getType Samples.value_x) = false.
Proof.
  pose proof (set_once_type Samples.value_y (Samples.type_at 2))
    as (Y1 & _ & _ & Y4 & Y5 & _).
  pose proof (set_once_type Samples.value_x (Samples.type_at 2))
    as (_ & X2 & _ & _ & _ & X6).
  assert (Hos : Forall (fun o => isOverwrite o = false)
                  [SetNeverUsedAsLValue true; SetDeclContext (Some 4%N)])
    by (repeat constructor).
  split; [reflexivity | ]. split; [exact (Y1 eq_refl) | ].
  split; [reflexivity | ]. split; [reflexivity | ].
  split; [exact Hos | ]. split; [reflexivity | ].
  split; [exact (X2 (Samples.type_at 1) _ _ _ eq_refl eq_refl Hos eq_refl) | ].
  split; [exact (proj2 (Y4 eq_refl)) | ].
  split; [exact (Y5 eq_refl) | ].
  split; [reflexivity | exact (X6 eq_refl)].
Defined.

(** C6 as stated does not hold: a variable constructed with a non-null
    type has its type set from the start. *)
Lemma constructed_with_type_hasType :
  hasType (VarDecl.base
             (VarDecl.ctor SourceLoc.invalid "x" {| Type_.Ptr := Some 1%N |}
                           nullptr))
  = true.
Proof. reflexivity. Qed.

(** C6, amended.  After a constructor of the Valued layer that the header
    defines ([ValueDecl], [VarDecl], [FuncDecl], [OneOfElementDecl]), and
    before any [setType] or [overwriteType], the type slot holds the type
    the constructor was given: [hasType] is false when that type is null
    and true otherwise, and [getType] returns that very type when it is
    not null and fails its assertion when it is. *)
Theorem type_after_construction (T : Type_.t) :
  (forall K DC name,
      ValueDecl.Ty (ctor K DC name T) = T
      /\ hasType (ctor K DC name T) = negb (Type_.isNull T)
      /\ (Type_.isNull T = false -> getType (ctor K DC name T) = Ok T)
      /\ (Type_.isNull T = true ->
            succeeds (getType (ctor K DC name T)) = false))
  /\ (forall VarLoc Name DC,
        ValueDecl.Ty (VarDecl.base (VarDecl.ctor VarLoc Name T DC)) = T
        /\ hasType (VarDecl.base (VarDecl.ctor VarLoc Name T DC))
           = negb (Type_.isNull T)
        /\ (Type_.isNull T = false ->
              getType (VarDecl.base (VarDecl.ctor VarLoc Name T DC)) = Ok T)
        /\ (Type_.isNull T = true ->
              succeeds (getType (VarDecl.base (VarDecl.ctor VarLoc Name T DC)))
              = false))
  /\ (forall StaticLoc FuncLoc Name Body DC,
        ValueDecl.Ty
          (FuncDecl.base (FuncDecl.ctor StaticLoc FuncLoc Name T Body DC)) = T
        /\ hasType
             (FuncDecl.base (FuncDecl.ctor StaticLoc FuncLoc Name T Body DC))
           = negb (Type_.isNull T)
        /\ (Type_.isNull T = false ->
              getType
                (FuncDecl.base (FuncDecl.ctor StaticLoc FuncLoc Name T Body DC))
              = Ok T)
        /\ (Type_.isNull T = true ->
              succeeds
                (getType
                   (FuncDecl.base
                      (FuncDecl.ctor StaticLoc FuncLoc Name T Body DC)))
              = false))
  /\ (forall IdentifierLoc Name ArgumentType DC,
        ValueDecl.Ty
          (OneOfElementDecl.base
             (OneOfElementDecl.ctor IdentifierLoc Name T ArgumentType DC)) = T
        /\ hasType
             (OneOfElementDecl.base
                (OneOfElementDecl.ctor IdentifierLoc Name T ArgumentType DC))
           = negb (Type_.isNull T)
        /\ (Type_.isNull T = false ->
              getType
                (OneOfElementDecl.base
                   (OneOfElementDecl.ctor IdentifierLoc Name T ArgumentType DC))
              = Ok T)
        /\ (Type_.isNull T = true ->
              succeeds
                (getType
                   (OneOfElementDecl.base
                      (OneOfElementDecl.ctor IdentifierLoc Name T
                                             ArgumentType DC)))
              = false)).
Proof.
  assert (Hslot : forall V : t,
             ValueDecl.Ty V = T ->
             ValueDecl.Ty V = T
             /\ hasType V = negb (Type_.isNull T)
             /\ (Type_.isNull T = false -> getType V = Ok T)
             /\ (Type_.isNull T = true -> succeeds (getType V) = false)).
  { intros V HV. unfold hasType, getType. rewrite HV.
    split; [reflexivity | ]. split; [reflexivity | ].
    split; intros HT; rewrite HT; reflexivity. }
  split; [intros K DC name; now apply Hslot | ].
  split; [intros VarLoc Name DC; now apply Hslot | ].
  split; [intros StaticLoc FuncLoc Name Body DC; now apply Hslot | ].
  intros IdentifierLoc Name ArgumentType DC. now apply Hslot.
Qed.

Lemma type_after_construction_witness :
  Type_.isNull Type_.null = true
  /\ hasType (ctor DeclKind.Func nullptr "f" Type_.null) = false
  /\ succeeds (getType (ctor DeclKind.Func nullptr "f" Type_.null)) = false
  /\ Type_.isNull {| Type_.Ptr := Some 1%N |} = false
  /\ getType (VarDecl.base
                (VarDecl.ctor SourceLoc.invalid "x" {| Type_.Ptr := Some 1%N |}
                              nullptr))
     = Ok {| Type_.Ptr := Some 1%N |}.
Proof.
  destruct (type_after_construction Type_.null) as (HN & _).
  destruct (HN DeclKind.Func nullptr "f"%string) as (_ & HN2 & _ & HN4).
  destruct (type_after_construction {| Type_.Ptr := Some 1%N |})
    as (_ & HV & _).
  destruct (HV SourceLoc.invalid "x"%string nullptr) as (_ & _ & HV3 & _).
  split; [reflexivity | ]. split; [exact HN2 | ].
  split; [exact (HN4 eq_refl) | ]. split; [reflexivity | ].
  exact (HV3 eq_refl).
Defined.
End ValuedTypeContract.

(** ** Function nodes *)

Section FuncDeclFacts.
Import FuncDecl.

(** C9.  The start location of a function is the location of [static]
    when that location is valid, and the location of [func] otherwise. *)
Theorem getLocStart_static_or_func (F : t) :
  (SourceLoc.isValid (getStaticLoc F) = true ->
     getLocStart F = getStaticLoc F)
  /\ (SourceLoc.isValid (getStaticLoc F) = false ->
        getLocStart F = getFuncLoc F).
Proof.
  unfold getLocStart, getStaticLoc, getFuncLoc.
  split; intros H; now rewrite H.
Qed.

Lemma getLocStart_static_or_func_witness :
  SourceLoc.isValid (getStaticLoc Samples.static_func_g) = true
  /\ getLocStart Samples.static_func_g = Samples.loc 30
  /\ SourceLoc.isValid (getStaticLoc Samples.func_f) = false
  /\ getLocStart Samples.func_f = Samples.loc 20.
Proof.
  split; [reflexivity | ].
  split; [exact (proj1 (getLocStart_static_or_func Samples.static_func_g)
                   eq_refl) | ].
  split; [reflexivity | ].
  exact (proj2 (getLocStart_static_or_func Samples.func_f) eq_refl).
Defined.

Lemma step_keeps_linkage (o : op) (F F' : t) :
  isMake o = false -> step o F = Ok F' -> GetOrSetDecl F' = GetOrSetDecl F.
Proof.
  destruct o as [o' | B | D | D]; simpl; try discriminate; intros _.
  - destruct (ValueDecl.step o' (base F)); simpl; [ | discriminate].
    now intros [= <-].
  - now intros [= <-].
Qed.

Lemma run_keeps_linkage (os : list op) (F F' : t) :
  Forall (fun o => isMake o = false) os ->
  run step os F = Ok F' -> GetOrSetDecl F' = GetOrSetDecl F.
Proof.
  intros Hos. revert F.
  induction Hos as [ | o os Ho _ IH]; intros F; simpl.
  - now intros [= <-].
  - destruct (step o F) as [F1 | msg] eqn:Hs; simpl; [ | discriminate].
    intros Hrun. rewrite (IH F1 Hrun).
    exact (step_keeps_linkage o F F1 Ho Hs).
Qed.

(** C10.  A function node just constructed, and as long as neither
    [makeGetter] nor [makeSetter] has been called on it, is the getter of
    no declaration and the setter of none. *)
Theorem fresh_function_is_no_accessor
    (StaticLoc FuncLoc : SourceLoc.t) (Name : Identifier) (Ty : Type_.t)
    (Body DC : ptr) :
  getGetterDecl (ctor StaticLoc FuncLoc Name Ty Body DC) = nullptr
  /\ getSetterDecl (ctor StaticLoc FuncLoc Name Ty Body DC) = nullptr
  /\ (forall os F,
        Forall (fun o => isMake o = false) os ->
        run step os (ctor StaticLoc FuncLoc Name Ty Body DC) = Ok F ->
        getGetterDecl F = nullptr /\ getSetterDecl F = nullptr).
Proof.
  split; [reflexivity | ]. split; [reflexivity | ].
  intros os F Hos Hrun.
  unfold getGetterDecl, getSetterDecl.
  rewrite (run_keeps_linkage os _ F Hos Hrun). split; reflexivity.
Qed.

Lemma fresh_function_is_no_accessor_witness :
  Forall (fun o => isMake o = false)
         [SetBody (Some 3%N); Base (ValueDecl.SetType (Samples.type_at 1))]
  /\ run step [SetBody (Some 3%N); Base (ValueDecl.SetType (Samples.type_at 1))]
         Samples.func_f
     = Ok (setBody (Some 3%N)
             (ctor SourceLoc.invalid (Samples.loc 20) "f" (Samples.type_at 1)
                   nullptr nullptr))
  /\ getGetterDecl
       (setBody (Some 3%N)
          (ctor SourceLoc.invalid (Samples.loc 20) "f" (Samples.type_at 1)
                nullptr nullptr)) = nullptr
  /\ getSetterDecl
       (setBody (Some 3%N)
          (ctor SourceLoc.invalid (Samples.loc 20) "f" (Samples.type_at 1)
                nullptr nullptr)) = nullptr.
Proof.
  assert (Hos : Forall (fun o => isMake o = false)
                  [SetBody (Some 3%N);
                   Base (ValueDecl.SetType (Samples.type_at 1))])
    by (repeat constructor).
  split; [exact Hos | ]. split; [reflexivity | ].
  exact (proj2 (proj2 (fresh_function_is_no_accessor
           SourceLoc.invalid (Samples.loc 20) "f"%string Type_.null
           nullptr nullptr))
           [SetBody (Some 3%N); Base (ValueDecl.SetType (Samples.type_at 1))]
           _ Hos eq_refl).
Defined.

Lemma linkage_exclusive (F : t) :
  getGetterDecl F = nullptr \/ getSetterDecl F = nullptr.
Proof.
  unfold getGetterDecl, getSetterDecl.
  destruct (PointerIntPair.getInt (GetOrSetDecl F)); [now left | now right].
Qed.

(** C1.  After [makeGetter(D)] the node is the getter of [D] and the
    setter of nothing; after a following [makeSetter(D2)] it is the setter
    of [D2] and the getter of nothing, also when other mutators are called
    in between; and in every state a function node can reach, one of the
    two roles at least is absent. *)
Theorem getter_setter_linkage (F : t) (D D2 : ptr) :
  getGetterDecl (makeGetter D F) = D
  /\ getSetterDecl (makeGetter D F) = nullptr
  /\ getSetterDecl (makeSetter D2 (makeGetter D F)) = D2
  /\ getGetterDecl (makeSetter D2 (makeGetter D F)) = nullptr
  /\ (forall os F1,
        Forall (fun o => isMake o = false) os ->
        run step os (makeGetter D F) = Ok F1 ->
        getGetterDecl F1 = D
        /\ getSetterDecl F1 = nullptr
        /\ getSetterDecl (makeSetter D2 F1) = D2
        /\ getGetterDecl (makeSetter D2 F1) = nullptr)
  /\ (forall F', reachable F' ->
        getGetterDecl F' = nullptr \/ getSetterDecl F' = nullptr).
Proof.
  split; [reflexivity | ]. split; [reflexivity | ].
  split; [reflexivity | ]. split; [reflexivity | ].
  split.
  - intros os F1 Hos Hrun.
    unfold getGetterDecl, getSetterDecl.
    rewrite (run_keeps_linkage os _ F1 Hos Hrun).
    repeat split; reflexivity.
  - intros F' _. apply linkage_exclusive.
Qed.

Lemma getter_setter_linkage_witness :
  reachable (makeSetter (Some 9%N) Samples.func_f)
  /\ (getGetterDecl (makeSetter (Some 9%N) Samples.func_f) = nullptr
      \/ getSetterDecl (makeSetter (Some 9%N) Samples.func_f) = nullptr)
  /\ Forall (fun o => isMake o = false) [SetBody (Some 3%N)]
  /\ run step [SetBody (Some 3%N)] (makeGetter (Some 8%N) Samples.func_f)
     = Ok (setBody (Some 3%N) (makeGetter (Some 8%N) Samples.func_f))
  /\ getSetterDecl
       (makeSetter (Some 9%N)
          (setBody (Some 3%N) (makeGetter (Some 8%N) Samples.func_f)))
     = Some 9%N.
Proof.
  assert (Hos : Forall (fun o => isMake o = false) [SetBody (Some 3%N)])
    by (repeat constructor).
  pose proof (getter_setter_linkage Samples.func_f (Some 8%N) (Some 9%N))
    as (_ & _ & _ & _ & H5 & _).
  assert (HR : reachable (makeSetter (Some 9%N) Samples.func_f)).
  { apply (reachable_step (MakeSetter (Some 9%N)) Samples.func_f).
    - apply reachable_ctor.
    - reflexivity. }
  split; [exact HR | ].
  split; [exact (proj2 (proj2 (proj2 (proj2 (proj2
                   (getter_setter_linkage Samples.func_f nullptr nullptr)))))
                   _ HR) | ].
  split; [exact Hos | ]. split; [reflexivity | ].
  exact (proj1 (proj2 (proj2 (H5 [SetBody (Some 3%N)] _ Hos eq_refl)))).
Defined.
End FuncDeclFacts.

(** ** The body of a top-level code node *)

Section TopLevelCodeFacts.
Import TopLevelCodeDecl.

(** C7 as stated does not hold: a body that holds an expression is
    replaced by a statement with the second overload of [setBody]. *)
Lemma body_changes_alternative :
  bodyExpr (setBody_Expr (Some 1%N) (ctor nullptr)) = Some 1%N
  /\ bodyStmt (setBody_Expr (Some 1%N) (ctor nullptr)) = nullptr
  /\ step (SetBodyStmt (Some 2%N)) (setBody_Expr (Some 1%N) (ctor nullptr))
     = Ok (setBody_Stmt (Some 2%N) (setBody_Expr (Some 1%N) (ctor nullptr)))
  /\ bodyExpr (setBody_Stmt (Some 2%N) (setBody_Expr (Some 1%N) (ctor nullptr)))
     = nullptr
  /\ bodyStmt (setBody_Stmt (Some 2%N) (setBody_Expr (Some 1%N) (ctor nullptr)))
     = Some 2%N.
Proof. repeat split. Qed.

Lemma one_alternative (D : t) :
  bodyExpr D = nullptr \/ bodyStmt D = nullptr.
Proof.
  unfold bodyExpr, bodyStmt, PointerUnion.dyn_cast_PT1,
    PointerUnion.dyn_cast_PT2, PointerUnion.is_PT1, PointerUnion.is_PT2.
  destruct (PointerIntPair.getInt (PointerUnion.Val (getBody D)));
    [now left | now right].
Qed.

Lemma nonempty_alternative (D : t) :
  bodyIsEmpty D = false ->
  xorb (isNonNull (bodyExpr D)) (isNonNull (bodyStmt D)) = true.
Proof.
  unfold bodyIsEmpty, bodyExpr, bodyStmt, PointerUnion.isNull,
    PointerUnion.dyn_cast_PT1, PointerUnion.dyn_cast_PT2,
    PointerUnion.is_PT1, PointerUnion.is_PT2.
  intros H. apply negb_false_iff in H.
  destruct (PointerIntPair.getInt (PointerUnion.Val (getBody D)));
    simpl; rewrite H; reflexivity.
Qed.

(** C7, amended.  The body starts empty.  [setBody] with an expression
    makes the body hold that expression and no statement, [setBody] with
    a statement makes it hold that statement and no expression, whatever
    the body held before.  In every state at most one alternative is
    held, and exactly one when the body is not empty. *)
Theorem body_alternatives (D : t) :
  (forall Parent,
      bodyIsEmpty (ctor Parent) = true
      /\ bodyExpr (ctor Parent) = nullptr
      /\ bodyStmt (ctor Parent) = nullptr)
  /\ (forall E, bodyExpr (setBody_Expr E D) = E
                /\ bodyStmt (setBody_Expr E D) = nullptr)
  /\ (forall St, bodyStmt (setBody_Stmt St D) = St
                 /\ bodyExpr (setBody_Stmt St D) = nullptr)
  /\ (bodyExpr D = nullptr \/ bodyStmt D = nullptr)
  /\ (bodyIsEmpty D = false ->
        xorb (isNonNull (bodyExpr D)) (isNonNull (bodyStmt D)) = true).
Proof.
  split; [intros Parent; repeat split | ].
  split; [intros E; split; reflexivity | ].
  split; [intros St; split; reflexivity | ].
  split; [apply one_alternative | apply nonempty_alternative].
Qed.

Lemma body_alternatives_witness :
  bodyIsEmpty (setBody_Stmt (Some 2%N) Samples.code) = false
  /\ xorb (isNonNull (bodyExpr (setBody_Stmt (Some 2%N) Samples.code)))
          (isNonNull (bodyStmt (setBody_Stmt (Some 2%N) Samples.code)))
     = true.
Proof.
  split; [reflexivity | ].
  exact (proj2 (proj2 (proj2 (proj2
           (body_alternatives (setBody_Stmt (Some 2%N) Samples.code)))))
           eq_refl).
Defined.
End TopLevelCodeFacts.

(** ** Variables and properties *)

Section VarDeclFacts.
Import VarDecl.

Lemma step_keeps_property (o : op) (D D' : t) :
  isProperty D = true -> step o D = Ok D' -> isProperty D' = true.
Proof.
  intros HD. destruct o as [o' | L G S' R]; simpl.
  - destruct (ValueDecl.step o' (base D)); simpl; [ | discriminate].
    now intros [= <-].
  - now intros [= <-].
Qed.

Lemma run_keeps_property (os : list op) (D D' : t) :
  isProperty D = true -> run step os D = Ok D' -> isProperty D' = true.
Proof.
  revert D. induction os as [ | o os IH]; intros D HD; simpl.
  - now intros [= <-].
  - destruct (step o D) as [D1 | msg] eqn:Hs; simpl; [ | discriminate].
    apply IH. exact (step_keeps_property o D D1 HD Hs).
Qed.

(** C8.  A variable without property record is no property and has
    neither getter nor setter; a variable just constructed is one.  After
    [setProperty] with getter [G] and setter [S'] it is a property whose
    getter is [G] and whose setter is [S'].  No sequence of mutators makes
    a property a plain variable again. *)
Theorem property_promotion (D : t) :
  (GetSet D = None ->
     isProperty D = false /\ getGetter D = nullptr /\ getSetter D = nullptr)
  /\ (forall VarLoc Name Ty DC, GetSet (ctor VarLoc Name Ty DC) = None)
  /\ (forall L G S' R,
        isProperty (setProperty L G S' R D) = true
        /\ getGetter (setProperty L G S' R D) = G
        /\ getSetter (setProperty L G S' R D) = S')
  /\ (forall os D',
        isProperty D = true -> run step os D = Ok D' -> isProperty D' = true).
Proof.
  split.
  { unfold isProperty, getGetter, getSetter. intros H. now rewrite H. }
  split; [reflexivity | ].
  split; [intros L G S' R; repeat split | ].
  intros os D'. apply run_keeps_property.
Qed.

Lemma property_promotion_witness :
  GetSet Samples.var_x = None
  /\ isProperty Samples.var_x = false
  /\ getGetter Samples.var_x = nullptr
  /\ getSetter Samples.var_x = nullptr
  /\ isProperty Samples.property_x = true
  /\ run step [Base (ValueDecl.OverwriteType (Samples.type_at 1));
               SetProperty (Samples.loc 8) nullptr nullptr (Samples.loc 12)]
         Samples.property_x
     = Ok (setProperty (Samples.loc 8) nullptr nullptr (Samples.loc 12)
             (ctor (Samples.loc 4) "x" (Samples.type_at 1) nullptr))
  /\ isProperty
       (setProperty (Samples.loc 8) nullptr nullptr (Samples.loc 12)
          (ctor (Samples.loc 4) "x" (Samples.type_at 1) nullptr))
     = true.
Proof.
  pose proof (property_promotion Samples.var_x) as (V1 & _).
  pose proof (property_promotion Samples.property_x) as (_ & _ & _ & P4).
  split; [reflexivity | ].
  split; [exact (proj1 (V1 eq_refl)) | ].
  split; [exact (proj1 (proj2 (V1 eq_refl))) | ].
  split; [exact (proj2 (proj2 (V1 eq_refl))) | ].
  split; [reflexivity | ]. split; [reflexivity | ].
  exact (P4 [Base (ValueDecl.OverwriteType (Samples.type_at 1));
             SetProperty (Samples.loc 8) nullptr nullptr (Samples.loc 12)]
            _ eq_refl eq_refl).
Defined.
End VarDeclFacts.

(** ** The access path of an import node *)

Section ImportPath.
Import ImportDecl.

Variables sizeof_ImportDecl sizeof_AccessPathElement : N.
Hypothesis node_size_pos : (0 < sizeof_ImportDecl)%N.
Hypothesis element_size_pos : (0 < sizeof_AccessPathElement)%N.

Local Abbreviation elts := (elements sizeof_AccessPathElement).
Local Abbreviation store := (store_elements sizeof_AccessPathElement).
Local Abbreviation buffer_of := (getPathBuffer sizeof_ImportDecl).

(** Copying a path writes at its first address and above. *)
Lemma store_elements_below (Path : list AccessPathElement) :
  forall (p : addr) (m : gmap N object) (q : addr),
    (q < p)%N -> store p Path m !! q = m !! q.
Proof.
  induction Path as [ | e Path IH]; intros p m q Hq; cbn [elements store_elements length]; [reflexivity | ].
  rewrite IH by lia. apply lookup_insert_ne. lia.
Qed.

Lemma store_elements_lookup (Path : list AccessPathElement) :
  forall (p : addr) (m : gmap N object) (a : addr) (o : object),
    store p Path m !! a = Some o ->
    m !! a = Some o
    \/ (p <= a < p + N.of_nat (length Path) * sizeof_AccessPathElement)%N.
Proof.
  induction Path as [ | e Path IH]; intros p m a o; cbn [elements store_elements length]; [now left | ].
  intros H. apply IH in H as [H | H].
  - destruct (decide (p = a)) as [-> | Hne].
    + right. lia.
    + left. now rewrite lookup_insert_ne in H.
  - right. lia.
Qed.

(** Reading back what was copied. *)
Lemma elements_store_elements (Path : list AccessPathElement) :
  forall (p : addr) (m : gmap N object),
    elts (store p Path m) p (length Path) = Some Path.
Proof.
  induction Path as [ | e Path IH]; intros p m; cbn [elements store_elements length]; [reflexivity | ].
  rewrite (store_elements_below Path) by lia.
  rewrite lookup_insert_eq. now rewrite IH.
Qed.

(** A view shows the same elements in any arena that keeps the objects
    of the first. *)
Lemma elements_mono (m m' : gmap N object) (n : nat) :
  (forall a o, m !! a = Some o -> m' !! a = Some o) ->
  forall (p : addr) (es : list AccessPathElement),
    elts m p n = Some es -> elts m' p n = Some es.
Proof.
  intros Hsub.
  induction n as [ | n IH]; intros p es; cbn [elements store_elements length]; [trivial | ].
  destruct (m !! p) as [[D | e] | ] eqn:Hp; try discriminate.
  rewrite (Hsub _ _ Hp).
  destruct (elts m _ n) as [es' | ] eqn:He; [ | discriminate].
  now rewrite (IH _ _ He).
Qed.

(** Rewriting the fixed-size part of a node leaves every path alone. *)
Lemma elements_insert_node (m : gmap N object) (a : addr) (D0 D1 : t) (n : nat) :
  m !! a = Some (Node D0) ->
  forall (p : addr) (es : list AccessPathElement),
    elts m p n = Some es -> elts (<[a := Node D1]> m) p n = Some es.
Proof.
  intros Ha.
  induction n as [ | n IH]; intros p es; cbn [elements store_elements length]; [trivial | ].
  destruct (m !! p) as [[D | e] | ] eqn:Hp; try discriminate.
  assert (Hne : a <> p) by (intros ->; congruence).
  rewrite lookup_insert_ne, Hp by exact Hne.
  destruct (elts m _ n) as [es' | ] eqn:He; [ | discriminate].
  now rewrite (IH _ _ He).
Qed.

Lemma align_up_ge (p a : N) : (0 < a)%N -> (p <= align_up p a)%N.
Proof.
  intros Ha. unfold align_up.
  pose proof (N.div_mod' (p + a - 1) a) as Hdm.
  pose proof (N.mod_lt (p + a - 1) a) as Hlt.
  nia.
Qed.
Local Abbreviation create' := (create sizeof_ImportDecl sizeof_AccessPathElement).
Local Abbreviation step' := (step sizeof_ImportDecl sizeof_AccessPathElement).
Local Abbreviation read := (readAccessPath sizeof_ImportDecl sizeof_AccessPathElement).

Local Abbreviation holds_path := (holds_path sizeof_ImportDecl sizeof_AccessPathElement).

Lemma holds_path_read (C : ASTContext) (this : addr)
    (P : list AccessPathElement) :
  holds_path C this P ->
  getAccessPath sizeof_ImportDecl (cells C) this
  = Some {| Data := buffer_of this; Length := N.of_nat (length P) |}
  /\ read C this = Some P.
Proof.
  intros (D & HD & HN & HE).
  unfold readAccessPath, getAccessPath, ArrayRef_vec.
  rewrite HD, HN. cbn [Data Length]. rewrite Nat2N.id. now split.
Qed.

(** The objects of an arena stay where they are when a node is created. *)
Lemma create_keeps (C : ASTContext) (DC : ptr) (L : SourceLoc.t)
    (Path : list AccessPathElement) (a : addr) (o : object) :
  wf C -> cells C !! a = Some o ->
  cells (snd (create' C DC L Path)) !! a = Some o.
Proof.
  intros HC Ha. pose proof (HC a o Ha) as Hlt.
  pose proof (align_up_ge (brk C) Decl.Alignment eq_refl) as Hal.
  unfold create, Allocate, ctor. cbn [snd cells brk].
  rewrite store_elements_below
    by (unfold getPathBuffer; lia).
  rewrite lookup_insert_ne by lia. exact Ha.
Qed.

Lemma create_wf (C : ASTContext) (DC : ptr) (L : SourceLoc.t)
    (Path : list AccessPathElement) :
  wf C -> wf (snd (create' C DC L Path)).
Proof.
  intros HC a o.
  pose proof (align_up_ge (brk C) Decl.Alignment eq_refl) as Hal.
  unfold create, Allocate, ctor. cbn [snd cells brk].
  intros H. apply store_elements_lookup in H as [H | H].
  - destruct (decide (align_up (brk C) Decl.Alignment = a)) as [<- | Hne].
    + lia.
    + rewrite lookup_insert_ne in H by exact Hne.
      pose proof (HC a o H). lia.
  - unfold getPathBuffer in H. lia.
Qed.

(** The view of a node just created: it starts behind the fixed-size
    part and has the length the [unsigned] field took. *)
Lemma create_getAccessPath (C : ASTContext) (DC : ptr) (L : SourceLoc.t)
    (Path : list AccessPathElement) :
  getAccessPath sizeof_ImportDecl (cells (snd (create' C DC L Path)))
                (fst (create' C DC L Path))
  = Some {| Data := buffer_of (fst (create' C DC L Path));
            Length := to_unsigned (N.of_nat (length Path)) |}.
Proof.
  unfold getAccessPath, create, Allocate, ctor. cbn [fst snd cells brk].
  rewrite store_elements_below by (unfold getPathBuffer; lia).
  now rewrite lookup_insert_eq.
Qed.

Lemma create_holds_path (C : ASTContext) (DC : ptr) (L : SourceLoc.t)
    (Path : list AccessPathElement) :
  (N.of_nat (length Path) < 2 ^ 32)%N ->
  holds_path (snd (create' C DC L Path)) (fst (create' C DC L Path)) Path.
Proof.
  intros Hlen.
  unfold ImportDecl.holds_path, create, Allocate, ctor.
  cbn [fst snd cells brk].
  eexists. split; [ | split].
  - rewrite store_elements_below by (unfold getPathBuffer; lia).
    apply lookup_insert_eq.
  - cbn [NumPathElements]. unfold to_unsigned. now apply N.mod_small.
  - apply elements_store_elements.
Qed.

Lemma step_wf (o : op) (C C' : ASTContext) :
  wf C -> step' o C = Ok C' -> wf C'.
Proof.
  intros HC. destruct o as [DC L Path | this DC]; cbn [step].
  - intros [= <-]. now apply create_wf.
  - unfold setDeclContext.
    destruct (cells C !! this) as [[D | e] | ] eqn:Hthis; try discriminate.
    intros [= <-] a o. cbn [cells brk].
    destruct (decide (this = a)) as [<- | Hne].
    + intros _. exact (HC this _ Hthis).
    + rewrite lookup_insert_ne by exact Hne. apply HC.
Qed.

Lemma step_holds_path (o : op) (C C' : ASTContext) (this : addr)
    (P : list AccessPathElement) :
  wf C -> step' o C = Ok C' -> holds_path C this P -> holds_path C' this P.
Proof.
  intros HC Hs (D & HD & HN & HE).
  destruct o as [DC L Path | that DC]; cbn [step] in Hs.
  - injection Hs as <-. exists D. split; [ | split]; [ | exact HN | ].
    + now apply create_keeps.
    + apply (elements_mono (cells C)); [ | exact HE].
      intros a o. now apply create_keeps.
  - unfold setDeclContext in Hs.
    destruct (cells C !! that) as [[D0 | e] | ] eqn:Hthat; try discriminate.
    injection Hs as <-. unfold ImportDecl.holds_path. cbn [cells].
    destruct (decide (that = this)) as [-> | Hne].
    + eexists. split; [apply lookup_insert_eq | split].
      * cbn [NumPathElements]. congruence.
      * now apply (elements_insert_node _ _ D0).
    + exists D. split; [ | split]; [ | exact HN | ].
      * now rewrite lookup_insert_ne.
      * now apply (elements_insert_node _ _ D0).
Qed.

Lemma run_holds_path (os : list op) (this : addr) (P : list AccessPathElement) :
  forall C C' : ASTContext,
    wf C -> run step' os C = Ok C' -> holds_path C this P ->
    wf C' /\ holds_path C' this P.
Proof.
  induction os as [ | o os IH]; intros C C' HC; cbn [run].
  - intros [= <-] HP. now split.
  - destruct (step' o C) as [C1 | msg] eqn:Hs; cbn [bind]; [ | discriminate].
    intros Hrun HP. apply (IH C1 C' (step_wf o C C1 HC Hs) Hrun).
    exact (step_holds_path o C C1 this P HC Hs HP).
Qed.

(** C5, amended.  For a path [P] of fewer than 2^32 elements, the
    access path read back from an import node created with path [P] is
    [P], element for element and in order, and the view has the length of
    [P]; this stays so whatever happens to the arena afterwards: other
    nodes being created, scope back-references being replaced. *)
Theorem access_path_round_trip (C : ASTContext) (DC : ptr) (L : SourceLoc.t)
    (P : list AccessPathElement) :
  (N.of_nat (length P) < 2 ^ 32)%N ->
  getAccessPath sizeof_ImportDecl (cells (snd (create' C DC L P)))
                (fst (create' C DC L P))
  = Some {| Data := buffer_of (fst (create' C DC L P));
            Length := N.of_nat (length P) |}
  /\ read (snd (create' C DC L P)) (fst (create' C DC L P)) = Some P
  /\ (wf C ->
      forall os C2,
        run step' os (snd (create' C DC L P)) = Ok C2 ->
        getAccessPath sizeof_ImportDecl (cells C2) (fst (create' C DC L P))
        = Some {| Data := buffer_of (fst (create' C DC L P));
                  Length := N.of_nat (length P) |}
        /\ read C2 (fst (create' C DC L P)) = Some P).
Proof.
  intros Hlen.
  pose proof (create_holds_path C DC L P Hlen) as HP.
  split; [ | split].
  - apply (holds_path_read _ _ _ HP).
  - apply (holds_path_read _ _ _ HP).
  - intros HC os C2 Hrun.
    apply holds_path_read.
    apply (run_holds_path os _ P _ C2 (create_wf C DC L P HC) Hrun HP).
Qed.

(** What is read back from a node created with a path of any length: the
    first elements of the path, as many as the [unsigned] field took. *)
Lemma create_read_cut (C : ASTContext) (DC : ptr) (L : SourceLoc.t)
    (P : list AccessPathElement) :
  to_unsigned (N.of_nat (length P)) = 0%N ->
  read (snd (create' C DC L P)) (fst (create' C DC L P)) = Some [].
Proof.
  intros Hcut. unfold readAccessPath.
  rewrite create_getAccessPath. unfold ArrayRef_vec. cbn [Data Length].
  now rewrite Hcut.
Qed.
End ImportPath.

Lemma emptyContext_wf : ImportDecl.wf ImportDecl.emptyContext.
Proof. intros a o H. cbn [ImportDecl.cells ImportDecl.emptyContext] in H.
  rewrite lookup_empty in H. discriminate. Qed.

(** The round trip on the path of [import swift.int], and its stability
    when the scope of the node is replaced and another import is created. *)
Lemma access_path_round_trip_witness :
  (0 < Samples.sizeof_ImportDecl)%N
  /\ (0 < Samples.sizeof_AccessPathElement)%N
  /\ (N.of_nat (length Samples.import_path) < 2 ^ 32)%N
  /\ ImportDecl.wf ImportDecl.emptyContext
  /\ ImportDecl.readAccessPath Samples.sizeof_ImportDecl
       Samples.sizeof_AccessPathElement Samples.arena 0%N
     = Some Samples.import_path
  /\ match run (ImportDecl.step Samples.sizeof_ImportDecl
                  Samples.sizeof_AccessPathElement)
               Samples.arena_ops Samples.arena with
     | Ok C2 =>
         ImportDecl.readAccessPath Samples.sizeof_ImportDecl
           Samples.sizeof_AccessPathElement C2 0%N
         = Some Samples.import_path
     | AssertionFailed _ => False
     end.
Proof.
  pose proof (access_path_round_trip Samples.sizeof_ImportDecl
                Samples.sizeof_AccessPathElement eq_refl eq_refl
                ImportDecl.emptyContext nullptr (Samples.loc 100)
                Samples.import_path eq_refl) as (_ & H2 & H3).
  split; [reflexivity | ]. split; [reflexivity | ].
  split; [reflexivity | ].
  split; [exact emptyContext_wf | ].
  split; [exact H2 | ].
  destruct (run (ImportDecl.step Samples.sizeof_ImportDecl
                   Samples.sizeof_AccessPathElement)
                Samples.arena_ops Samples.arena) as [C2 | msg] eqn:Hrun.
  - exact (proj2 (H3 emptyContext_wf Samples.arena_ops C2 Hrun)).
  - vm_compute in Hrun. discriminate Hrun.
Defined.

(** C5 as stated does not hold for every path: of a path of 2^32 elements
    the [unsigned] field records none, and the node created with it shows
    an empty access path. *)
Lemma long_path_is_cut :
  length MoreSamples.long_path = N.to_nat (2 ^ 32)
  /\ ImportDecl.readAccessPath Samples.sizeof_ImportDecl
       Samples.sizeof_AccessPathElement
       (snd (ImportDecl.create Samples.sizeof_ImportDecl
               Samples.sizeof_AccessPathElement ImportDecl.emptyContext
               nullptr (Samples.loc 100) MoreSamples.long_path))
       (fst (ImportDecl.create Samples.sizeof_ImportDecl
               Samples.sizeof_AccessPathElement ImportDecl.emptyContext
               nullptr (Samples.loc 100) MoreSamples.long_path))
     = Some []
  /\ ImportDecl.readAccessPath Samples.sizeof_ImportDecl
       Samples.sizeof_AccessPathElement
       (snd (ImportDecl.create Samples.sizeof_ImportDecl
               Samples.sizeof_AccessPathElement ImportDecl.emptyContext
               nullptr (Samples.loc 100) MoreSamples.long_path))
       (fst (ImportDecl.create Samples.sizeof_ImportDecl
               Samples.sizeof_AccessPathElement ImportDecl.emptyContext
               nullptr (Samples.loc 100) MoreSamples.long_path))
     <> Some MoreSamples.long_path.
Proof.
  assert (Hlen : length MoreSamples.long_path = N.to_nat (2 ^ 32))
    by apply length_replicate.
  assert (Hcut : ImportDecl.to_unsigned (N.of_nat (length MoreSamples.long_path))
                 = 0%N).
  { rewrite Hlen, N2Nat.id. reflexivity. }
  assert (Hread := create_read_cut Samples.sizeof_ImportDecl
                     Samples.sizeof_AccessPathElement eq_refl eq_refl
                     ImportDecl.emptyContext nullptr (Samples.loc 100)
                     MoreSamples.long_path Hcut).
  split; [exact Hlen | ]. split; [exact Hread | ].
  rewrite Hread. intros Heq.
  apply (f_equal (fun o : option (list ImportDecl.AccessPathElement) =>
                    match o with
                    | Some l => N.of_nat (length l)
                    | None => 0%N
                    end)) in Heq.
  cbv beta iota in Heq. rewrite Hlen, N2Nat.id in Heq. discriminate Heq.
Qed.

(** * Further properties of the header *)

(** ** Sequences of mutators in general *)

Section Runs.
Context {State Op A : Type} (step : Op -> State -> result State) (f : State -> A).

(** What no operation changes, no sequence of operations changes. *)
Lemma run_preserves :
  (forall o s s', step o s = Ok s' -> f s' = f s) ->
  forall os s s', run step os s = Ok s' -> f s' = f s.
Proof.
  intros Hstep os. induction os as [ | o os IH]; intros s s'; cbn [run].
  - now intros [= <-].
  - destruct (step o s) as [s1 | msg] eqn:Hs; cbn [bind]; [ | discriminate].
    intros Hrun. rewrite (IH s1 s' Hrun). exact (Hstep o s s1 Hs).
Qed.

(** A field that each operation either writes or leaves alone holds the
    last value written. *)
Lemma run_last_write (sel : Op -> option A) :
  (forall o s s', step o s = Ok s' -> f s' = default (f s) (sel o)) ->
  forall os s s', run step os s = Ok s' -> f s' = last_write sel os (f s).
Proof.
  intros Hstep os. unfold last_write.
  induction os as [ | o os IH]; intros s s'; cbn [run fold_left].
  - now intros [= <-].
  - destruct (step o s) as [s1 | msg] eqn:Hs; cbn [bind]; [ | discriminate].
    intros Hrun. rewrite (IH s1 s' Hrun). now rewrite (Hstep o s s1 Hs).
Qed.
End Runs.

(** ** The kind bit-field *)

(** X3.  The eight bits of [DeclBits.Kind] hold the tags 0 to 255 and no other:
    the kind read back from a node is the kind it was constructed with
    exactly for these, and two kinds 256 apart give the same node. *)
Theorem kind_field_width (kind : DeclKind.t) (DC : ptr) :
  0 <= Decl.getKind (Decl.ctor kind DC) < 2 ^ Decl.NumDeclBits
  /\ (Decl.getKind (Decl.ctor kind DC) = kind
      <-> 0 <= kind < 2 ^ Decl.NumDeclBits)
  /\ Decl.ctor (kind + 2 ^ Decl.NumDeclBits) DC = Decl.ctor kind DC.
Proof.
  assert (Hmod : forall x, (x mod 2 ^ 32) mod 2 ^ Decl.NumDeclBits
                           = x mod 2 ^ Decl.NumDeclBits).
  { intros x. apply Z.mod_mod_divide. exists (2 ^ 24). reflexivity. }
  unfold Decl.getKind, Decl.ctor. cbn [Decl.Kind]. rewrite !Hmod.
  assert (Hpos : 0 < 2 ^ Decl.NumDeclBits) by reflexivity.
  split; [apply Z.mod_pos_bound; exact Hpos | ].
  split.
  - split.
    + intros <-. apply Z.mod_pos_bound; exact Hpos.
    + intros Hk. now apply Z.mod_small.
  - f_equal. rewrite <- (Z.mul_1_l (2 ^ Decl.NumDeclBits)) at 1.
    apply Z.mod_add. discriminate.
Qed.

(** ** What the mutators of the Valued layer leave alone *)

(** A class test reads the kind tag and nothing else. *)
Lemma classof_kind (c : DeclNodes.Class) (D D' : Decl.t) :
  Decl.getKind D' = Decl.getKind D ->
  Casting.classof c D' = Casting.classof c D.
Proof.
  intros HK.
  destruct c as [ | | | i]; [ | | | destruct i];
    cbn [Casting.classof];
    unfold Decl.classof, NamedDecl.classof, ValueDecl.classof,
      ImportDecl.classof, ExtensionDecl.classof, PatternBindingDecl.classof,
      TopLevelCodeDecl.classof, SubscriptDecl.classof, TypeAliasDecl.classof,
      VarDecl.classof, FuncDecl.classof, OneOfElementDecl.classof;
    now rewrite ?HK.
Qed.

Section ValuedFrame.
Import ValueDecl ValueDeclWrites.

Lemma step_keeps_named (o : op) (V V' : t) :
  step o V = Ok V' ->
  getKind V' = getKind V
  /\ NamedDecl.Name (base V') = NamedDecl.Name (base V).
Proof.
  destruct o; cbn [step]; try (intros [= <-]; repeat split; reflexivity).
  intros Hs. apply setType_inv in Hs as [_ ->]. repeat split; reflexivity.
Qed.

(** X4.  No sequence of the mutators [setDeclContext], [setType],
    [overwriteType], [setHasFixedLifetime] and [setNeverUsedAsLValue] of a
    Valued node changes its kind or its name, nor the outcome of any
    dynamic type test on it. *)
Theorem valued_identity_is_immutable (os : list op) (V V' : t) :
  run step os V = Ok V' ->
  getKind V' = getKind V
  /\ NamedDecl.getName (base V') = NamedDecl.getName (base V)
  /\ (forall c, Casting.classof c (asDecl V') = Casting.classof c (asDecl V)).
Proof.
  intros Hrun.
  assert (HK : getKind V' = getKind V).
  { apply (run_preserves step getKind
             (fun o s s' H => proj1 (step_keeps_named o s s' H)) os V V' Hrun). }
  split; [exact HK | ].
  split.
  { apply (run_preserves step (fun V => NamedDecl.Name (base V))
             (fun o s s' H => proj2 (step_keeps_named o s s' H))
             os V V' Hrun). }
  intros c. apply classof_kind. exact HK.
Qed.

Lemma step_keeps_Ty (o : op) (V V' : t) :
  isOverwrite o = false -> hasType V = true -> step o V = Ok V' ->
  Ty V' = Ty V.
Proof.
  intros Ho HV. destruct o; cbn [step isOverwrite] in *; try discriminate;
    try (intros [= <-]; reflexivity).
  intros Hs. apply setType_inv in Hs as [Hs _]. congruence.
Qed.

(** X5.  Once the type of a node is set, a sequence of mutators without
    [overwriteType] runs through exactly when it holds no [setType], and
    then leaves the type as it was. *)
Theorem set_type_is_frozen (os : list op) (V : t) :
  hasType V = true ->
  Forall (fun o => isOverwrite o = false) os ->
  (succeeds (run step os V) = true
   <-> Forall (fun o => isSetType o = false) os)
  /\ (forall V', run step os V = Ok V' ->
        Ty V' = Ty V /\ getType V' = getType V).
Proof.
  intros HV Hos. revert V HV.
  induction Hos as [ | o os Ho Hos IH]; intros V HV; cbn [run].
  - split; [split; [constructor | reflexivity] | ].
    intros V' [= <-]. split; reflexivity.
  - destruct (step o V) as [V1 | msg] eqn:Hs; cbn [bind].
    + assert (H1 : hasType V1 = true)
        by exact (step_keeps_type o V V1 Ho HV Hs).
      assert (HT : Ty V1 = Ty V) by exact (step_keeps_Ty o V V1 Ho HV Hs).
      assert (HnS : isSetType o = false).
      { destruct o; try reflexivity. cbn [step] in Hs.
        rewrite (setType_set T V HV) in Hs. discriminate. }
      destruct (IH V1 H1) as [IH1 IH2]. split.
      * rewrite IH1. split.
        -- intros HF. now constructor.
        -- intros HF. now inversion HF.
      * intros V' Hrun. destruct (IH2 V' Hrun) as [E1 E2].
        split; [congruence | ].
        rewrite E2. unfold getType. now rewrite HT.
    + split; [ | discriminate].
      split; [discriminate | ].
      intros HF. inversion HF as [ | ? ? HnS _]; subst.
      destruct o; cbn [step isSetType] in *; discriminate.
Qed.

Lemma step_writes (o : op) (V V' : t) :
  step o V = Ok V' ->
  getDeclContext V' = default (getDeclContext V) (writes_Context o)
  /\ hasFixedLifetime V' = default (hasFixedLifetime V) (writes_HasFixedLifetime o)
  /\ isNeverUsedAsLValue V'
     = default (isNeverUsedAsLValue V) (writes_NeverUsedAsLValue o).
Proof.
  destruct o; cbn [step]; try (intros [= <-]; repeat split; reflexivity).
  intros Hs. apply setType_inv in Hs as [_ ->]. repeat split; reflexivity.
Qed.

(** X6.  The scope back-reference and the two usage flags are independent
    fields: after any sequence of mutators each holds the value last
    written to it, or its initial value when it was never written;
    writes to the other fields and to the type do not reach it. *)
Theorem valued_fields_hold_last_write (os : list op) (V V' : t) :
  run step os V = Ok V' ->
  getDeclContext V' = last_write writes_Context os (getDeclContext V)
  /\ hasFixedLifetime V'
     = last_write writes_HasFixedLifetime os (hasFixedLifetime V)
  /\ isNeverUsedAsLValue V'
     = last_write writes_NeverUsedAsLValue os (isNeverUsedAsLValue V).
Proof.
  intros Hrun. split; [ | split].
  - apply (run_last_write step getDeclContext writes_Context
             (fun o s s' H => proj1 (step_writes o s s' H)) os V V' Hrun).
  - apply (run_last_write step hasFixedLifetime writes_HasFixedLifetime
             (fun o s s' H => proj1 (proj2 (step_writes o s s' H)))
             os V V' Hrun).
  - apply (run_last_write step isNeverUsedAsLValue writes_NeverUsedAsLValue
             (fun o s s' H => proj2 (proj2 (step_writes o s s' H)))
             os V V' Hrun).
Qed.
End ValuedFrame.

(** ** Function nodes under sequences of mutators *)

Section FuncDeclRuns.
Import FuncDecl FuncDeclWrites.

Lemma step_linkage (o : op) (F F' : t) :
  step o F = Ok F' -> linkage F' = default (linkage F) (writes_linkage o).
Proof.
  destruct o as [o' | B | D | D]; cbn [step writes_linkage default].
  - destruct (ValueDecl.step o' (base F)); cbn [bind]; [ | discriminate].
    now intros [= <-].
  - now intros [= <-].
  - now intros [= <-].
  - now intros [= <-].
Qed.

(** X7.  After any sequence of mutators, what [getGetterDecl] and
    [getSetterDecl] return is decided by the last [makeGetter] or
    [makeSetter] of the sequence alone: its declaration in its role and
    null in the other.  Without such a call they return what they
    returned before. *)
Theorem linkage_holds_last_make (os : list op) (F F' : t) :
  run step os F = Ok F' ->
  (getGetterDecl F', getSetterDecl F')
  = last_write writes_linkage os (getGetterDecl F, getSetterDecl F).
Proof.
  intros Hrun.
  exact (run_last_write step linkage writes_linkage step_linkage os F F' Hrun).
Qed.

Lemma step_keeps_locs (o : op) (F F' : t) :
  step o F = Ok F' ->
  StaticLoc F' = StaticLoc F /\ FuncLoc F' = FuncLoc F.
Proof.
  destruct o as [o' | B | D | D]; cbn [step].
  - destruct (ValueDecl.step o' (base F)); cbn [bind]; [ | discriminate].
    now intros [= <-].
  - now intros [= <-].
  - now intros [= <-].
  - now intros [= <-].
Qed.

Lemma step_keeps_kind (o : op) (F F' : t) :
  step o F = Ok F' -> Decl.getKind (asDecl F') = Decl.getKind (asDecl F).
Proof.
  destruct o as [o' | B | D | D]; cbn [step];
    try (intros [= <-]; reflexivity).
  destruct (ValueDecl.step o' (base F)) as [b | msg] eqn:Hs; cbn [bind];
    [ | discriminate].
  intros [= <-]. exact (proj1 (step_keeps_named o' (base F) b Hs)).
Qed.

(** X8.  No mutator of a function node touches its two keyword locations or its
    kind: after any sequence of them the start location, the answer of
    [isStatic] and every dynamic type test are what they were. *)
Theorem function_location_is_fixed (os : list op) (F F' : t) :
  run step os F = Ok F' ->
  getStaticLoc F' = getStaticLoc F
  /\ getFuncLoc F' = getFuncLoc F
  /\ getLocStart F' = getLocStart F
  /\ isStatic F' = isStatic F
  /\ (forall c, Casting.classof c (asDecl F') = Casting.classof c (asDecl F)).
Proof.
  intros Hrun.
  assert (HS : StaticLoc F' = StaticLoc F).
  { apply (run_preserves step StaticLoc
             (fun o s s' H => proj1 (step_keeps_locs o s s' H)) os F F' Hrun). }
  assert (HF : FuncLoc F' = FuncLoc F).
  { apply (run_preserves step FuncLoc
             (fun o s s' H => proj2 (step_keeps_locs o s s' H)) os F F' Hrun). }
  unfold getStaticLoc, getFuncLoc, getLocStart, isStatic. rewrite HS, HF.
  repeat split; try reflexivity.
  intros c. apply classof_kind.
  apply (run_preserves step (fun F => Decl.getKind (asDecl F))
           step_keeps_kind os F F' Hrun).
Qed.

End FuncDeclRuns.

(** ** Top-level code nodes under sequences of mutators *)

Section TopLevelCodeRuns.
Import TopLevelCodeDecl TopLevelCodeDeclWrites.

Lemma step_body (o : op) (D D' : t) :
  step o D = Ok D' -> body D' = default (body D) (writes_body o).
Proof.
  destruct o; cbn [step writes_body default]; now intros [= <-].
Qed.

Lemma step_keeps_code_kind (o : op) (D D' : t) :
  step o D = Ok D' ->
  Decl.getKind (base D') = Decl.getKind (base D)
  /\ base_DeclContext D' = base_DeclContext D.
Proof. destruct o; cbn [step]; intros [= <-]; split; reflexivity. Qed.

(** X9.  After any sequence of mutators the body holds what the last [setBody]
    of the sequence gave it, an expression or a statement and never both,
    whatever the calls before it held; replacing the scope back-reference
    does not reach the body, and no mutator reaches the kind. *)
Theorem body_holds_last_setBody (os : list op) (D D' : t) :
  run step os D = Ok D' ->
  (bodyExpr D', bodyStmt D') = last_write writes_body os (bodyExpr D, bodyStmt D)
  /\ Decl.getKind (base D') = Decl.getKind (base D)
  /\ base_DeclContext D' = base_DeclContext D.
Proof.
  intros Hrun. split; [ | split].
  - exact (run_last_write step body writes_body step_body os D D' Hrun).
  - apply (run_preserves step (fun D => Decl.getKind (base D))
             (fun o s s' H => proj1 (step_keeps_code_kind o s s' H))
             os D D' Hrun).
  - apply (run_preserves step base_DeclContext
             (fun o s s' H => proj2 (step_keeps_code_kind o s s' H))
             os D D' Hrun).
Qed.

End TopLevelCodeRuns.

(** ** Variables under sequences of mutators *)

Section VarDeclRuns.
Import VarDecl VarDeclWrites.

Lemma step_keeps_var (o : op) (D D' : t) :
  step o D = Ok D' ->
  VarLoc D' = VarLoc D
  /\ Decl.getKind (asDecl D') = Decl.getKind (asDecl D).
Proof.
  destruct o as [o' | L G S' R]; cbn [step].
  - destruct (ValueDecl.step o' (base D)) as [b | msg] eqn:Hs; cbn [bind];
      [ | discriminate].
    intros [= <-]. split; [reflexivity | ].
    exact (proj1 (step_keeps_named o' (base D) b Hs)).
  - intros [= <-]. split; reflexivity.
Qed.

Lemma step_base_keeps_GetSet (o : op) (D D' : t) :
  isBase o = true -> step o D = Ok D' -> GetSet D' = GetSet D.
Proof.
  destruct o as [o' | L G S' R]; cbn [isBase step]; [ | discriminate].
  intros _.
  destruct (ValueDecl.step o' (base D)); cbn [bind]; [ | discriminate].
  now intros [= <-].
Qed.

(** X10.  The mutators a variable inherits from the Valued layer (type, flags,
    scope) never reach its property record: after any sequence of them the
    variable is a property exactly if it was one, with the same getter and
    setter; and no mutator at all moves the [var] location or the kind. *)
Theorem valued_mutators_keep_property (os : list op) (D D' : t) :
  run step os D = Ok D' ->
  getVarLoc D' = getVarLoc D
  /\ getLocStart D' = getLocStart D
  /\ Decl.getKind (asDecl D') = Decl.getKind (asDecl D)
  /\ (Forall (fun o => isBase o = true) os ->
      isProperty D' = isProperty D
      /\ getGetter D' = getGetter D
      /\ getSetter D' = getSetter D).
Proof.
  intros Hrun.
  assert (HL : VarLoc D' = VarLoc D).
  { apply (run_preserves step VarLoc
             (fun o s s' H => proj1 (step_keeps_var o s s' H)) os D D' Hrun). }
  split; [exact HL | ]. split; [exact HL | ].
  split.
  { apply (run_preserves step (fun D => Decl.getKind (asDecl D))
             (fun o s s' H => proj2 (step_keeps_var o s s' H)) os D D' Hrun). }
  intros Hos.
  assert (HG : GetSet D' = GetSet D).
  { clear HL. revert D Hrun.
    induction Hos as [ | o os Ho _ IH]; intros D; cbn [run].
    - now intros [= <-].
    - destruct (step o D) as [D1 | msg] eqn:Hs; cbn [bind]; [ | discriminate].
      intros Hrun. rewrite (IH D1 Hrun).
      exact (step_base_keeps_GetSet o D D1 Ho Hs). }
  unfold isProperty, getGetter, getSetter. rewrite HG. repeat split.
Qed.
End VarDeclRuns.

(** ** The two type slots of a type alias *)

Section TypeAliasRuns.
Import TypeAliasDecl TypeAliasDeclOps.

Lemma setUnderlyingType_inv (T : Type_.t) (D D' : t) :
  setUnderlyingType T D = Ok D' ->
  hasUnderlyingType D = false /\ D' = overwriteUnderlyingType T D.
Proof.
  unfold setUnderlyingType, hasUnderlyingType.
  destruct (Type_.isNull (UnderlyingTy D)); cbn; intros H.
  - split; congruence.
  - discriminate.
Qed.

Lemma step_keeps_underlying (o : op) (D D' : t) :
  isOverwriteUnderlying o = false -> hasUnderlyingType D = true ->
  step o D = Ok D' -> UnderlyingTy D' = UnderlyingTy D.
Proof.
  intros Ho HD.
  destruct o as [o' | loc | T | T]; cbn [step isOverwriteUnderlying] in *;
    try discriminate.
  - destruct (ValueDecl.step o' (base D)); cbn [bind]; [ | discriminate].
    now intros [= <-].
  - now intros [= <-].
  - intros Hs. apply setUnderlyingType_inv in Hs as [Hs _]. congruence.
Qed.

(** X11.  The underlying type of a type alias is a set-once slot of its own,
    apart from the type slot of the Valued layer: once it is set, a second
    [setUnderlyingType] fails its assertion, and no sequence of mutators
    without [overwriteUnderlyingType] changes it, whatever that sequence
    does to the type of the declaration itself. *)
Theorem underlying_type_is_frozen (os : list op) (D D' : t) :
  hasUnderlyingType D = true ->
  Forall (fun o => isOverwriteUnderlying o = false) os ->
  run step os D = Ok D' ->
  UnderlyingTy D' = UnderlyingTy D
  /\ getUnderlyingType D' = Ok (UnderlyingTy D)
  /\ (forall T, setUnderlyingType T D'
                = AssertionFailed "changing underlying type of type-alias").
Proof.
  intros HD Hos Hrun.
  assert (HU : UnderlyingTy D' = UnderlyingTy D).
  { revert D HD Hrun.
    induction Hos as [ | o os Ho _ IH]; intros D HD; cbn [run].
    - now intros [= <-].
    - destruct (step o D) as [D1 | msg] eqn:Hs; cbn [bind]; [ | discriminate].
      intros Hrun.
      pose proof (step_keeps_underlying o D D1 Ho HD Hs) as H1.
      rewrite (IH D1); [exact H1 | | exact Hrun].
      unfold hasUnderlyingType in *. now rewrite H1. }
  unfold hasUnderlyingType in HD. apply negb_true_iff in HD.
  split; [exact HU | ].
  unfold getUnderlyingType, setUnderlyingType. rewrite HU, HD.
  split; [reflexivity | intros T; reflexivity].
Qed.

Lemma step_underlying_keeps_base (o : op) (D D' : t) :
  isBase o = false -> step o D = Ok D' -> base D' = base D.
Proof.
  intros Hno.
  destruct o as [o' | loc | T | T]; cbn [step isBase] in *.
  - discriminate.
  - now intros [= <-].
  - intros Hs. now apply setUnderlyingType_inv in Hs as [_ ->].
  - now intros [= <-].
Qed.

(** X12.  Conversely, setting, overwriting or reading the underlying type and
    moving the keyword location never reach the Valued part of the alias:
    its own type, flags, name and kind stay as they are. *)
Theorem underlying_type_keeps_valued_part (os : list op) (D D' : t) :
  Forall (fun o => isBase o = false) os ->
  run step os D = Ok D' ->
  base D' = base D
  /\ ValueDecl.hasType (base D') = ValueDecl.hasType (base D)
  /\ ValueDecl.getKind (base D') = ValueDecl.getKind (base D).
Proof.
  intros Hos Hrun.
  assert (HB : base D' = base D).
  { revert D Hrun.
    induction Hos as [ | o os Ho _ IH]; intros D; cbn [run].
    - now intros [= <-].
    - destruct (step o D) as [D1 | msg] eqn:Hs; cbn [bind]; [ | discriminate].
      intros Hrun. rewrite (IH D1 Hrun).
      exact (step_underlying_keeps_base o D D1 Ho Hs). }
  rewrite HB. repeat split.
Qed.
End TypeAliasRuns.

(** ** The array view of an access path *)

Section AccessPathView.
Import ImportDecl.

Variables sizeof_ImportDecl sizeof_AccessPathElement : N.

Local Abbreviation elts := (elements sizeof_AccessPathElement).
Local Abbreviation buffer_of := (getPathBuffer sizeof_ImportDecl).
Local Abbreviation read := (readAccessPath sizeof_ImportDecl sizeof_AccessPathElement).

(** A view of [n] elements at [p] shows [es] exactly when [es] has [n]
    elements and its [i]-th element is the object [i] element sizes
    behind [p]. *)
Lemma elements_spec (m : gmap N object) (n : nat) :
  forall (p : addr) (es : list AccessPathElement),
    elts m p n = Some es
    <-> length es = n
        /\ (forall (i : nat) (e : AccessPathElement),
              es !! i = Some e ->
              m !! (p + N.of_nat i * sizeof_AccessPathElement)%N
              = Some (PathElement e)).
Proof.
  induction n as [ | n IH]; intros p es; cbn [elements].
  - split.
    + intros [= <-]. split; [reflexivity | ]. intros i e H. discriminate H.
    + intros [Hl _]. destruct es; [reflexivity | discriminate Hl].
  - split.
    + destruct (m !! p) as [[D | e0] | ] eqn:Hp; try discriminate.
      destruct (elts m (p + sizeof_AccessPathElement)%N n) as [es0 | ] eqn:He;
        [ | discriminate].
      intros [= <-]. apply IH in He as [Hl Hi].
      split; [cbn; now rewrite Hl | ].
      intros [ | i] e Hlook; cbn in Hlook.
      * injection Hlook as <-. rewrite <- Hp. f_equal. lia.
      * rewrite <- (Hi i e Hlook). f_equal. lia.
    + intros [Hl Hi]. destruct es as [ | e0 es0]; [discriminate Hl | ].
      pose proof (Hi 0%nat e0 eq_refl) as H0.
      replace (p + N.of_nat 0 * sizeof_AccessPathElement)%N with p in H0 by lia.
      rewrite H0.
      assert (He : elts m (p + sizeof_AccessPathElement)%N n = Some es0).
      { apply IH. split; [now injection Hl | ].
        intros i e Hlook. rewrite <- (Hi (S i) e Hlook). f_equal. lia. }
      now rewrite He.
Qed.

Lemma read_layout (C : ASTContext) (this : addr)
    (es : list AccessPathElement) :
  read C this = Some es
  <-> (exists D : t,
          cells C !! this = Some (Node D)
          /\ NumPathElements D = N.of_nat (length es))
      /\ (forall (i : nat) (e : AccessPathElement),
            es !! i = Some e ->
            cells C !! (this + 1 * sizeof_ImportDecl
                        + N.of_nat i * sizeof_AccessPathElement)%N
            = Some (PathElement e)).
Proof.
  unfold readAccessPath, getAccessPath, ArrayRef_vec. split.
  - destruct (cells C !! this) as [[D | e0] | ] eqn:Hthis; try discriminate.
    cbn [Data Length]. intros He. apply elements_spec in He as [Hl Hi].
    split; [ | exact Hi].
    exists D. split; [reflexivity | ]. rewrite Hl. now rewrite N2Nat.id.
  - intros [(D & HD & HN) Hi]. rewrite HD. cbn [Data Length].
    apply elements_spec. split; [ | exact Hi].
    rewrite HN. now rewrite Nat2N.id.
Qed.

(** X13.  The access path of a node lies in the node's own allocation: when
    [getAccessPath] shows the path [es] of the node at [this], the node
    records the length of [es], and the [i]-th element of [es] is the
    object that lies [sizeof(ImportDecl)] plus [i] element sizes behind
    [this].  Conversely such a layout is read back as [es]. *)
Theorem access_path_layout (C : ASTContext) (this : addr)
    (es : list AccessPathElement) :
  read C this = Some es
  <-> (exists D : t,
          cells C !! this = Some (Node D)
          /\ NumPathElements D = N.of_nat (length es))
      /\ (forall (i : nat) (e : AccessPathElement),
            es !! i = Some e ->
            cells C !! (this + 1 * sizeof_ImportDecl
                        + N.of_nat i * sizeof_AccessPathElement)%N
            = Some (PathElement e)).
Proof. exact (read_layout C this es). Qed.

(** X14.  Reading the access path of a node looks at the node and at its own
    path elements only: in an arena that agrees with [C] on these, the
    same path is read, whatever else differs. *)
Theorem access_path_frame (C C' : ASTContext) (this : addr)
    (es : list AccessPathElement) :
  read C this = Some es ->
  cells C' !! this = cells C !! this ->
  (forall i : nat,
      (i < length es)%nat ->
      cells C' !! (this + 1 * sizeof_ImportDecl
                   + N.of_nat i * sizeof_AccessPathElement)%N
      = cells C !! (this + 1 * sizeof_ImportDecl
                    + N.of_nat i * sizeof_AccessPathElement)%N) ->
  read C' this = Some es.
Proof.
  intros Hread Hthis Hcells.
  apply read_layout in Hread as [(D & HD & HN) Hi].
  apply read_layout. split.
  - exists D. split; [now rewrite Hthis | exact HN].
  - intros i e Hlook. rewrite Hcells; [now apply Hi | ].
    now apply lookup_lt_Some in Hlook.
Qed.

End AccessPathView.

(** ** The enumeration of a well-placed kind file *)

Section EnumExpansion.
Import DeclNodes DeclKind DefFile.

Lemma lookup_enum_app (e : enumerator) (env env' : list (enumerator * Z)) :
  lookup_enum e (env ++ env')
  = match lookup_enum e env with
    | Some v => Some v
    | None => lookup_enum e env'
    end.
Proof.
  induction env as [ | [e' v] env IH]; cbn [lookup_enum app]; [reflexivity | ].
  destruct (decide (e = e')); [reflexivity | exact IH].
Qed.

(** Expanding a file only adds enumerators behind those already there. *)
Lemma expand_extends (es : list entry) :
  forall next env, exists tail, expand next env es = env ++ tail.
Proof.
  induction es as [ | [i P | r f l] es IH]; intros next env; cbn [expand].
  - exists []. now rewrite app_nil_r.
  - destruct (IH (next + 1) (env ++ [(E i, next)])) as [tail ->].
    eexists. now rewrite <- app_assoc.
  - destruct (IH (default next (lookup_enum (E l) env) + 1)
                 (env ++ [(First_ r, default next (lookup_enum (E f) env));
                          (Last_ r, default next (lookup_enum (E l) env))]))
      as [tail ->].
    eexists. now rewrite <- app_assoc.
Qed.

Lemma expand_keeps (es : list entry) (next : Z) (env : list (enumerator * Z))
    (e : enumerator) (v : Z) :
  lookup_enum e env = Some v -> lookup_enum e (expand next env es) = Some v.
Proof.
  intros H. destruct (expand_extends es next env) as [tail ->].
  rewrite lookup_enum_app. now rewrite H.
Qed.

(** The state of the expansion in the middle of a well-placed file, and
    what it gives at the end: [seen] are the kinds and [ranges] the ranges
    declared so far, [next] the value waiting for the next kind. *)
Lemma expand_inv (es : list entry) :
  forall (next : Z) (env : list (enumerator * Z)) (seen : list Id)
         (ranges : list RangeId),
    well_placed seen ranges es = true ->
    next = Z.of_nat (length seen) ->
    NoDup seen ->
    (forall (i : nat) (k : Id),
        seen !! i = Some k -> lookup_enum (E k) env = Some (Z.of_nat i)) ->
    (forall k : Id, k ∉ seen -> lookup_enum (E k) env = None) ->
    (forall r : RangeId,
        r ∉ ranges ->
        lookup_enum (First_ r) env = None /\ lookup_enum (Last_ r) env = None) ->
    (forall (i : nat) (k : Id),
        (seen ++ decl_ids es) !! i = Some k ->
        lookup_enum (E k) (expand next env es) = Some (Z.of_nat i))
    /\ NoDup (seen ++ decl_ids es)
    /\ (forall r f l,
          DECL_RANGE r f l ∈ es ->
          exists a b : nat,
            (a <= b)%nat
            /\ (seen ++ decl_ids es) !! a = Some f
            /\ (seen ++ decl_ids es) !! b = Some l
            /\ lookup_enum (First_ r) (expand next env es) = Some (Z.of_nat a)
            /\ lookup_enum (Last_ r) (expand next env es) = Some (Z.of_nat b)).
Proof.
  induction es as [ | [i P | r f l] es IH];
    intros next env seen ranges Hwp Hnext Hnd Hseen Hunseen Hranges;
    cbn [expand decl_ids well_placed] in *.
  - rewrite app_nil_r. split; [exact Hseen | ]. split; [exact Hnd | ].
    intros r f l Hin. now apply elem_of_nil in Hin.
  - apply andb_true_iff in Hwp as [Hi Hwp]. apply bool_decide_eq_true in Hi.
    rewrite cons_middle, app_assoc.
    destruct (IH (next + 1) (env ++ [(E i, next)]) (seen ++ [i]) ranges Hwp)
      as (H1 & H2 & H3).
    + rewrite length_app. cbn [length]. lia.
    + apply NoDup_app. split; [exact Hnd | ]. split; [ | apply NoDup_singleton].
      intros x Hx Hx'. apply list_elem_of_singleton in Hx'. now subst x.
    + intros j k Hj. rewrite lookup_enum_app.
      apply lookup_snoc_Some in Hj as [[_ Hj] | [-> <-]].
      * now rewrite (Hseen j k Hj).
      * rewrite (Hunseen i Hi). cbn [lookup_enum].
        destruct (decide (E i = E i)); [now subst next | congruence].
    + intros k Hk. apply not_elem_of_app in Hk as [Hk Hki].
      rewrite lookup_enum_app, (Hunseen k Hk). cbn [lookup_enum].
      destruct (decide (E k = E i)) as [Heq | _]; [ | reflexivity].
      injection Heq as ->. exfalso. apply Hki. now apply list_elem_of_singleton.
    + intros r Hr. destruct (Hranges r Hr) as [HF HL].
      rewrite !lookup_enum_app, HF, HL. cbn [lookup_enum].
      destruct (decide (First_ r = E i)); [discriminate | ].
      destruct (decide (Last_ r = E i)); [discriminate | ]. now split.
    + split; [exact H1 | ]. split; [exact H2 | ].
      intros r f l Hin. apply elem_of_cons in Hin as [Heq | Hin];
        [discriminate Heq | ].
      exact (H3 r f l Hin).
  - apply andb_true_iff in Hwp as [Hwp Hwp'].
    apply andb_true_iff in Hwp as [Hwp Hlast].
    apply andb_true_iff in Hwp as [Hr Hf].
    apply bool_decide_eq_true in Hr, Hf, Hlast.
    apply list_elem_of_lookup_1 in Hf as [a Ha].
    rewrite last_lookup in Hlast.
    pose proof (lookup_lt_Some _ _ _ Ha) as Halt.
    rewrite (Hseen _ _ Ha), (Hseen _ _ Hlast). cbn [default].
    destruct (IH (Z.of_nat (pred (length seen)) + 1)
                 (env ++ [(First_ r, Z.of_nat a);
                          (Last_ r, Z.of_nat (pred (length seen)))])
                 seen (r :: ranges) Hwp') as (H1 & H2 & H3).
    + lia.
    + exact Hnd.
    + intros j k Hj. rewrite lookup_enum_app. now rewrite (Hseen j k Hj).
    + intros k Hk. rewrite lookup_enum_app, (Hunseen k Hk). cbn [lookup_enum].
      destruct (decide (E k = First_ r)); [discriminate | ].
      destruct (decide (E k = Last_ r)); [discriminate | reflexivity].
    + intros r' Hr'. apply not_elem_of_cons in Hr' as [Hne Hr'].
      destruct (Hranges r' Hr') as [HF HL].
      rewrite !lookup_enum_app, HF, HL. cbn [lookup_enum].
      destruct (decide (First_ r' = First_ r)) as [Heq | _];
        [injection Heq as ->; now destruct Hne | ].
      destruct (decide (First_ r' = Last_ r)); [discriminate | ].
      destruct (decide (Last_ r' = First_ r)); [discriminate | ].
      destruct (decide (Last_ r' = Last_ r)) as [Heq | _];
        [injection Heq as ->; now destruct Hne | ].
      now split.
    + split; [exact H1 | ]. split; [exact H2 | ].
      intros r0 f0 l0 Hin. apply elem_of_cons in Hin as [Heq | Hin];
        [ | exact (H3 r0 f0 l0 Hin)].
      injection Heq as -> -> ->.
      destruct (Hranges r Hr) as [HF HL].
      exists a, (pred (length seen)).
      split; [lia | ].
      split; [now apply lookup_app_l_Some | ].
      split; [now apply lookup_app_l_Some | ].
      split; apply expand_keeps; rewrite lookup_enum_app.
      * rewrite HF. cbn [lookup_enum].
        destruct (decide (First_ r = First_ r)); [reflexivity | congruence].
      * rewrite HL. cbn [lookup_enum].
        destruct (decide (Last_ r = First_ r)); [discriminate | ].
        destruct (decide (Last_ r = Last_ r)); [reflexivity | congruence].
Qed.

(** X1.  In a well-placed file the kinds are numbered from zero in the order of
    their [DECL] lines, whatever ranges stand between them: the tag of a
    kind is its position, so two kinds never share a tag. *)
Theorem kind_tags_are_positions (es : list entry) :
  well_placed [] [] es = true ->
  NoDup (decl_ids es)
  /\ (forall (i : nat) (k : Id),
        decl_ids es !! i = Some k ->
        lookup_enum (E k) (expand 0 [] es) = Some (Z.of_nat i))
  /\ (forall k k' : Id,
        k ∈ decl_ids es -> k' ∈ decl_ids es ->
        lookup_enum (E k) (expand 0 [] es) = lookup_enum (E k') (expand 0 [] es) ->
        k = k').
Proof.
  intros Hwp.
  destruct (expand_inv es 0 [] [] [] Hwp eq_refl NoDup_nil_2) as (H1 & H2 & _).
  - intros i k H. discriminate H.
  - reflexivity.
  - now split.
  - cbn [app] in H1, H2. split; [exact H2 | ]. split; [exact H1 | ].
    intros k k' Hk Hk' Heq.
    apply list_elem_of_lookup_1 in Hk as [i Hi].
    apply list_elem_of_lookup_1 in Hk' as [i' Hi'].
    rewrite (H1 i k Hi), (H1 i' k' Hi') in Heq.
    injection Heq as Heq. apply Nat2Z.inj in Heq. subst i'. congruence.
Qed.

Lemma kind_tags_are_positions_witness :
  well_placed [] [] entries = true
  /\ decl_ids entries !! 6%nat = Some DeclNodes.Var
  /\ DeclKind.tag DeclNodes.Var = 6
  /\ lookup_enum (E DeclNodes.Var) (expand 0 [] entries) = Some 6.
Proof.
  split; [reflexivity | ]. split; [reflexivity | ]. split; [reflexivity | ].
  exact (proj1 (proj2 (kind_tags_are_positions entries eq_refl))
           6%nat DeclNodes.Var eq_refl).
Defined.

(** X2.  In a well-placed file a range is an interval of the file: its two
    enumerators are the tags of its first and of its last kind, the first
    not behind the last, and the tag of a kind lies between them exactly
    for the kinds declared from the first to the last. *)
Theorem range_is_an_interval (es : list entry) (r : RangeId) (f l : Id) :
  well_placed [] [] es = true ->
  DECL_RANGE r f l ∈ es ->
  exists a b : nat,
    (a <= b)%nat
    /\ decl_ids es !! a = Some f
    /\ decl_ids es !! b = Some l
    /\ lookup_enum (First_ r) (expand 0 [] es) = Some (Z.of_nat a)
    /\ lookup_enum (Last_ r) (expand 0 [] es) = Some (Z.of_nat b)
    /\ (forall (i : nat) (k : Id) (t : Z),
          decl_ids es !! i = Some k ->
          lookup_enum (E k) (expand 0 [] es) = Some t ->
          (Z.of_nat a <= t <= Z.of_nat b <-> (a <= i <= b)%nat)).
Proof.
  intros Hwp Hin.
  destruct (expand_inv es 0 [] [] [] Hwp eq_refl NoDup_nil_2) as (H1 & _ & H3).
  - intros i k H. discriminate H.
  - reflexivity.
  - now split.
  - cbn [app] in H1, H3.
    destruct (H3 r f l Hin) as (a & b & Hab & Ha & Hb & HF & HL).
    exists a, b. repeat (split; [assumption | ]).
    intros i k t Hi Ht. rewrite (H1 i k Hi) in Ht. injection Ht as <-. lia.
Qed.

Lemma range_is_an_interval_witness :
  well_placed [] [] entries = true
  /\ DECL_RANGE Named DeclNodes.TypeAlias DeclNodes.OneOfElement ∈ entries
  /\ exists a b : nat,
       decl_ids entries !! a = Some DeclNodes.TypeAlias
       /\ decl_ids entries !! b = Some DeclNodes.OneOfElement
       /\ lookup_enum (First_ Named) (expand 0 [] entries) = Some (Z.of_nat a)
       /\ lookup_enum (Last_ Named) (expand 0 [] entries) = Some (Z.of_nat b).
Proof.
  assert (Hin : DECL_RANGE Named DeclNodes.TypeAlias DeclNodes.OneOfElement ∈ entries).
  { unfold entries. rewrite !elem_of_cons. repeat (first [now left | right]). }
  split; [reflexivity | ]. split; [exact Hin | ].
  destruct (range_is_an_interval entries Named DeclNodes.TypeAlias DeclNodes.OneOfElement eq_refl Hin)
    as (a & b & _ & Ha & Hb & HF & HL & _).
  exists a, b. repeat split; assumption.
Defined.

(** The placement matters: when a range closes before the kind declared
    last, the kind after the range takes a tag that is in use. *)
Example misplaced_range_collides :
  well_placed [] [] MoreSamples.misplaced = false
  /\ lookup_enum (E DeclNodes.Extension) (expand 0 [] MoreSamples.misplaced)
     = lookup_enum (E DeclNodes.Func) (expand 0 [] MoreSamples.misplaced).
Proof. split; reflexivity. Qed.
End EnumExpansion.

(** ** Pattern bindings and l-values *)

Section PatternBindingRuns.
Import PatternBindingDecl PatternBindingDeclOps.

Lemma step_binding (o : op) (D D' : t) :
  step o D = Ok D' ->
  getInit D' = default (getInit D) (writes_Init o)
  /\ Pat D' = Pat D /\ VarLoc D' = VarLoc D
  /\ Decl.getKind (base D') = Decl.getKind (base D).
Proof. destruct o; cbn [step]; intros [= <-]; repeat split. Qed.

(** X15.  The initialiser is the one thing of a pattern binding that changes
    after construction: after any sequence of mutators it is the one given
    by the last [setInit], while the pattern, the [var] location and the
    kind are what the constructor set. *)
Theorem binding_changes_initialiser_only (os : list op) (D D' : t) :
  run step os D = Ok D' ->
  getInit D' = last_write writes_Init os (getInit D)
  /\ getPattern D' = getPattern D
  /\ getLocStart D' = getLocStart D
  /\ PatternBindingDecl.classof (base D') = PatternBindingDecl.classof (base D).
Proof.
  intros Hrun. split; [ | split; [ | split]].
  - apply (run_last_write step getInit writes_Init
             (fun o s s' H => proj1 (step_binding o s s' H)) os D D' Hrun).
  - apply (run_preserves step Pat
             (fun o s s' H => proj1 (proj2 (step_binding o s s' H)))
             os D D' Hrun).
  - apply (run_preserves step VarLoc
             (fun o s s' H => proj1 (proj2 (proj2 (step_binding o s s' H))))
             os D D' Hrun).
  - apply (classof_kind (DeclNodes.Leaf DeclNodes.PatternBinding)).
    apply (run_preserves step (fun D => Decl.getKind (base D))
             (fun o s s' H => proj2 (proj2 (proj2 (step_binding o s s' H))))
             os D D' Hrun).
Qed.
End PatternBindingRuns.

Section LValues.
Import ValueDecl.

(** X16.  References to a Valued node are l-values exactly when the node is a
    variable, and this never changes: for a node with the tag of kind [k],
    [isReferencedAsLValue] holds if and only if [k] is Var, before and
    after any sequence of mutators. *)
Theorem referenced_as_lvalue_iff_var (k : DeclNodes.Id) (os : list op) (V V' : t) :
  getKind V = DeclKind.tag k ->
  run step os V = Ok V' ->
  (isReferencedAsLValue V = true <-> k = DeclNodes.Var)
  /\ isReferencedAsLValue V' = isReferencedAsLValue V
  /\ isReferencedAsLValue V = VarDecl.classof (asDecl V).
Proof.
  intros HK Hrun. split; [ | split].
  - unfold isReferencedAsLValue. rewrite HK. split.
    + intros H. apply Z.eqb_eq in H. now apply tag_inj.
    + intros ->. reflexivity.
  - unfold isReferencedAsLValue.
    now rewrite (run_preserves step getKind
                   (fun o s s' H => proj1 (step_keeps_named o s s' H))
                   os V V' Hrun).
  - reflexivity.
Qed.
End LValues.

(** ** The properties above on sample nodes *)

Section Instances.
Import Samples MoreSamples.

Lemma valued_identity_is_immutable_witness :
  exists V' : ValueDecl.t,
    run ValueDecl.step value_ops value_x = Ok V'
    /\ ValueDecl.getKind V' = DeclKind.Var
    /\ VarDecl.classof (ValueDecl.asDecl V') = true.
Proof.
  eexists. split; [reflexivity | ].
  destruct (valued_identity_is_immutable value_ops value_x _ eq_refl)
    as (HK & _ & HC).
  split; [exact HK | exact (HC (DeclNodes.Leaf DeclNodes.Var))].
Defined.

Lemma set_type_is_frozen_witness :
  ValueDecl.hasType value_y = true
  /\ Forall (fun o => ValueDecl.isOverwrite o = false) typed_value_ops
  /\ Forall (fun o => ValueDeclWrites.isSetType o = false) typed_value_ops
  /\ succeeds (run ValueDecl.step typed_value_ops value_y) = true
  /\ exists V' : ValueDecl.t,
       run ValueDecl.step typed_value_ops value_y = Ok V'
       /\ ValueDecl.getType V' = Ok (type_at 1).
Proof.
  assert (H1 : Forall (fun o => ValueDecl.isOverwrite o = false) typed_value_ops)
    by (repeat constructor).
  assert (H2 : Forall (fun o => ValueDeclWrites.isSetType o = false)
                 typed_value_ops)
    by (repeat constructor).
  destruct (set_type_is_frozen typed_value_ops value_y eq_refl H1) as [Hiff Hty].
  split; [reflexivity | ]. split; [exact H1 | ]. split; [exact H2 | ].
  split; [exact (proj2 Hiff H2) | ].
  eexists. split; [reflexivity | ].
  exact (proj2 (Hty _ eq_refl)).
Defined.

Lemma valued_fields_hold_last_write_witness :
  exists V' : ValueDecl.t,
    run ValueDecl.step value_ops value_x = Ok V'
    /\ ValueDeclWrites.getDeclContext V' = Some 6%N
    /\ ValueDecl.hasFixedLifetime V' = true
    /\ ValueDecl.isNeverUsedAsLValue V' = false.
Proof.
  eexists. split; [reflexivity | ].
  exact (valued_fields_hold_last_write value_ops value_x _ eq_refl).
Defined.

Lemma linkage_holds_last_make_witness :
  exists F' : FuncDecl.t,
    run FuncDecl.step func_ops func_f = Ok F'
    /\ (FuncDecl.getGetterDecl F', FuncDecl.getSetterDecl F')
       = (Some 8%N, nullptr).
Proof.
  eexists. split; [reflexivity | ].
  exact (linkage_holds_last_make func_ops func_f _ eq_refl).
Defined.

Lemma function_location_is_fixed_witness :
  exists F' : FuncDecl.t,
    run FuncDecl.step func_ops static_func_g = Ok F'
    /\ FuncDecl.getLocStart F' = loc 30
    /\ FuncDecl.isStatic F' = true.
Proof.
  eexists. split; [reflexivity | ].
  destruct (function_location_is_fixed func_ops static_func_g _ eq_refl)
    as (_ & _ & HL & HS & _).
  split; [exact HL | exact HS].
Defined.

Lemma body_holds_last_setBody_witness :
  exists D' : TopLevelCodeDecl.t,
    run TopLevelCodeDecl.step code_ops code = Ok D'
    /\ (TopLevelCodeDecl.bodyExpr D', TopLevelCodeDecl.bodyStmt D')
       = (nullptr, Some 2%N).
Proof.
  eexists. split; [reflexivity | ].
  exact (proj1 (body_holds_last_setBody code_ops code _ eq_refl)).
Defined.

Lemma valued_mutators_keep_property_witness :
  Forall (fun o => VarDeclWrites.isBase o = true) var_ops
  /\ exists D' : VarDecl.t,
       run VarDecl.step var_ops property_x = Ok D'
       /\ VarDecl.isProperty D' = true
       /\ VarDecl.getGetter D' = Some 64%N
       /\ VarDecl.getSetter D' = Some 72%N.
Proof.
  assert (Hos : Forall (fun o => VarDeclWrites.isBase o = true) var_ops)
    by (repeat constructor).
  split; [exact Hos | ].
  eexists. split; [reflexivity | ].
  exact (proj2 (proj2 (proj2
           (valued_mutators_keep_property var_ops property_x _ eq_refl))) Hos).
Defined.

Lemma underlying_type_is_frozen_witness :
  TypeAliasDecl.hasUnderlyingType alias_t = true
  /\ Forall (fun o => TypeAliasDeclOps.isOverwriteUnderlying o = false) alias_ops
  /\ exists D' : TypeAliasDecl.t,
       run TypeAliasDeclOps.step alias_ops alias_t = Ok D'
       /\ ValueDecl.getType (TypeAliasDecl.base D') = Ok (type_at 8)
       /\ TypeAliasDecl.getUnderlyingType D' = Ok (type_at 3).
Proof.
  assert (Hos : Forall (fun o => TypeAliasDeclOps.isOverwriteUnderlying o = false)
                  alias_ops)
    by (repeat constructor).
  split; [reflexivity | ]. split; [exact Hos | ].
  eexists. split; [reflexivity | ]. split; [reflexivity | ].
  exact (proj1 (proj2
           (underlying_type_is_frozen alias_ops alias_t _ eq_refl Hos eq_refl))).
Defined.

Lemma underlying_type_keeps_valued_part_witness :
  Forall (fun o => TypeAliasDeclOps.isBase o = false) underlying_ops
  /\ exists D' : TypeAliasDecl.t,
       run TypeAliasDeclOps.step underlying_ops alias_t = Ok D'
       /\ TypeAliasDecl.getUnderlyingType D' = Ok (type_at 5)
       /\ TypeAliasDecl.base D' = TypeAliasDecl.base alias_t.
Proof.
  assert (Hos : Forall (fun o => TypeAliasDeclOps.isBase o = false) underlying_ops)
    by (repeat constructor).
  split; [exact Hos | ].
  eexists. split; [reflexivity | ]. split; [reflexivity | ].
  exact (proj1 (underlying_type_keeps_valued_part underlying_ops alias_t _
                  Hos eq_refl)).
Defined.

Lemma access_path_frame_witness :
  ImportDecl.readAccessPath sizeof_ImportDecl sizeof_AccessPathElement arena 0%N
  = Some import_path
  /\ ImportDecl.readAccessPath sizeof_ImportDecl sizeof_AccessPathElement
       {| ImportDecl.cells :=
            <[64%N := ImportDecl.PathElement ("x"%string, loc 1)]>
              (ImportDecl.cells arena);
          ImportDecl.brk := ImportDecl.brk arena |} 0%N
     = Some import_path.
Proof.
  assert (Hread : ImportDecl.readAccessPath sizeof_ImportDecl
                    sizeof_AccessPathElement arena 0%N = Some import_path)
    by reflexivity.
  split; [exact Hread | ].
  apply (access_path_frame sizeof_ImportDecl sizeof_AccessPathElement arena _
           0%N import_path Hread).
  - reflexivity.
  - intros i Hi. cbn [ImportDecl.cells].
    apply lookup_insert_ne.
    unfold import_path in Hi. cbn [length] in Hi.
    unfold sizeof_ImportDecl, sizeof_AccessPathElement. lia.
Defined.

Lemma binding_changes_initialiser_only_witness :
  exists D' : PatternBindingDecl.t,
    run PatternBindingDeclOps.step binding_ops binding = Ok D'
    /\ PatternBindingDecl.getInit D' = Some 96%N
    /\ PatternBindingDeclOps.getPattern D' = Some 80%N.
Proof.
  eexists. split; [reflexivity | ].
  destruct (binding_changes_initialiser_only binding_ops binding _ eq_refl)
    as (HI & HP & _).
  split; [exact HI | exact HP].
Defined.

Lemma referenced_as_lvalue_iff_var_witness :
  ValueDecl.getKind value_x = DeclKind.tag DeclNodes.Var
  /\ exists V' : ValueDecl.t,
       run ValueDecl.step value_ops value_x = Ok V'
       /\ ValueDecl.isReferencedAsLValue V' = true.
Proof.
  split; [reflexivity | ].
  eexists. split; [reflexivity | ].
  destruct (referenced_as_lvalue_iff_var DeclNodes.Var value_ops value_x _
              eq_refl eq_refl) as (H1 & H2 & _).
  rewrite H2. exact (proj2 H1 eq_refl).
Defined.
End Instances.
